(** * bolt-ride-events: the ingestion, merge and aggregation handlers

    A shallow embedding of the three Lambda handlers of the repository

      - [lambda_functions/producer/app.py]   (module [Ingestor]),
      - [lambda_functions/consumer/app.py]   (module [Merger]),
      - [lambda_functions/aggregator/app.py] (module [Aggregator]),

    and the properties of the pipeline they form.

    The managed services the handlers talk to are modelled by their
    observable state: the DynamoDB table is a finite map from the value of
    the key attribute [id] to the item stored under it, the Kinesis stream
    is the list of records appended to it, the S3 bucket is a finite map
    from object keys to object bodies.  Library functions the handlers call
    ([json], [base64], [csv], [pandas]) are parameters of the sections
    below; their failure (a raised exception) is the [None] of an option.

    What the model takes for granted:
      - a row of a CSV file is a mapping from column names to strings;
      - [get_object] fails on an object the bucket does not hold,
        [put_record] on a request the stream refuses, [get_item] on a key
        the table refuses and [put_item] on an item the table refuses;
        what the stream and the table refuse is a parameter; [scan] and
        [put_object] succeed;
      - logging has no effect. *)

From Stdlib Require Import Ascii QArith.
From stdpp Require Import base option list gmap strings sorting pretty.

Open Scope string_scope.
Open Scope list_scope.

(** ** The Merger: [lambda_functions/consumer/app.py] *)

Module Merger.

Section merger.
(** Attribute values.  The handler never looks inside a value: it copies
    values between mappings and uses one as the table key. *)
Context {value : Type} `{Countable value}.

#[local] Abbreviation item := (gmap string value).

(** What [json.loads] returns: a dict, or some other JSON value. *)
Inductive json :=
  | JObject (fields : item)
  | JOther.

(** [base64.b64decode(data).decode('utf-8')] and [json.loads]; [None]
    when the call raises. *)
Variable b64decode_utf8 : string → option string.
Variable json_loads : string → option json.

(** [record['kinesis']['data']] *)
Record kinesis_record := { data : string }.

(** The table named by [DYNAMODB_TABLE_NAME], with the [put_item] calls
    issued so far. *)
Record dynamodb := {
  items : gmap value item;
  put_calls : list item
}.

(** What the table refuses: [get_item] raises on a key the table does not
    admit (the empty string, a value that is not of the key's type), and
    [put_item] raises on an item it does not take (a value that cannot be
    stored, such as a float; an item that is too large). *)
Variable get_item_accepts : value → bool.
Variable put_item_accepts : item → bool.

(** [table.get_item(Key={'id': trip_id}).get('Item', {})]; [None] when
    the call raises. *)
Definition get_item (table : dynamodb) (trip_id : value) : option item :=
  if get_item_accepts trip_id
  then Some (default ∅ (items table !! trip_id))
  else None.

(** [table.put_item(Item=merged_item)]: the table after the call, and
    [None] when the call raises.  An item the table takes replaces
    whatever is stored under the value of its key attribute; an item
    without the key attribute is refused, like any item the table does not
    take, and leaves the stored items as they were. *)
Definition put_item (merged_item : item) (table : dynamodb)
  : dynamodb * option unit :=
  let called := put_calls table ++ [merged_item] in
  match merged_item !! "id" with
  | Some k =>
      if put_item_accepts merged_item
      then ({| items := <[k := merged_item]> (items table);
               put_calls := called |}, Some tt)
      else ({| items := items table; put_calls := called |}, None)
  | None => ({| items := items table; put_calls := called |}, None)
  end.

(** [payload['trip_id']]: raises on a payload that is not a dict and on a
    dict without the key. *)
Definition subscript (payload : json) (key : string) : option value :=
  match payload with
  | JObject fields => fields !! key
  | JOther => None
  end.

(** [{**existing_item, **payload}] followed by [merged_item['id'] = trip_id] *)
Definition merge (existing_item payload : item) (trip_id : value) : item :=
  <["id" := trip_id]> (payload ∪ existing_item).

(** The body of the [try] block, for one record: the table after it, and
    [None] when it raised.  Everything before [put_item] leaves the table
    alone. *)
Definition try_record (record : kinesis_record) (table : dynamodb)
  : dynamodb * option unit :=
  match
    decoded_data ← b64decode_utf8 (data record);
    payload ← json_loads decoded_data;
    trip_id ← subscript payload "trip_id";
    existing_item ← get_item table trip_id;
    match payload with
    | JObject fields => Some (merge existing_item fields trip_id)
    | JOther => None
    end
  with
  | Some merged_item => put_item merged_item table
  | None => (table, None)
  end.

(** One iteration of the loop: the [except] branch logs and goes on with
    the table as the [try] block left it. *)
Definition process_record (table : dynamodb) (record : kinesis_record)
  : dynamodb :=
  (try_record record table).1.

(** [lambda_handler(event, context)], with [records = event['Records']]:
    the table after the batch, and the returned dict. *)
Definition lambda_handler (records : list kinesis_record) (table : dynamodb)
  : dynamodb * gmap string string :=
  (foldl process_record table records, {[ "status" := "ok" ]}).

(** *** Vocabulary of the properties *)

(** The record decodes, and parses to a dict. *)
Definition decodes_to (record : kinesis_record) (payload : item) : Prop :=
  ∃ decoded_data,
    b64decode_utf8 (data record) = Some decoded_data ∧
    json_loads decoded_data = Some (JObject payload).

(** The record decodes, and parses to a value without a [trip_id]. *)
Definition lacks_trip_id (record : kinesis_record) : Prop :=
  ∃ decoded_data payload,
    b64decode_utf8 (data record) = Some decoded_data ∧
    json_loads decoded_data = Some payload ∧
    subscript payload "trip_id" = None.

(** The table holds every item under the value of its [id], as a table
    whose key attribute is [id] does. *)
Definition keyed_by_id (table : dynamodb) : Prop :=
  ∀ k it, items table !! k = Some it → it !! "id" = Some k.

(** The value a field was given by the most recent payload that had it. *)
Definition last_sent (f : string) (payloads : list item) : option value :=
  last (omap (λ payload : item, payload !! f) payloads).

(** The [trip_id] the [try] block reads off a record; none when the
    decoding, the parsing or the subscript raises. *)
Definition trip_id_of (record : kinesis_record) : option value :=
  decoded_data ← b64decode_utf8 (data record);
  payload ← json_loads decoded_data;
  subscript payload "trip_id".

(** The fields of the dict a record carries for the trip [k]; none when
    the record fails or names another trip. *)
Definition payload_for (k : value) (record : kinesis_record) : option item :=
  decoded_data ← b64decode_utf8 (data record);
  payload ← json_loads decoded_data;
  match payload with
  | JObject fields =>
      if decide (fields !! "trip_id" = Some k) then Some fields else None
  | JOther => None
  end.

(** What a record that carries [payload] for the trip [k] makes of the
    entry of [k]: the merged item when the table takes both calls, the
    entry as it was when it refuses one of them. *)
Definition merged_entry (k : value) (entry : option item) (payload : item)
  : option item :=
  let merged_item := merge (default ∅ entry) payload k in
  if get_item_accepts k && put_item_accepts merged_item
  then Some merged_item
  else entry.

End merger.

(** The record the consumer is handed for the [Data] of a [put_record]
    call: the event carries the blob base64-encoded. *)
Definition delivered (b64encode : string → string) (Data : string)
  : kinesis_record :=
  {| data := b64encode Data |}.

End Merger.

(** ** The Ingestor: [lambda_functions/producer/app.py] *)

Module Ingestor.

(** The arguments of one [kinesis_client.put_record] call. *)
Record put_record_request := {
  StreamName : string;
  Data : string;
  PartitionKey : string
}.

(** [record['s3']['bucket']['name']] and [record['s3']['object']['key']] of
    one notification. *)
Record s3_event_record := {
  bucket_name : string;
  object_key : string
}.

(** What the handler has done to the services: the [get_object] calls and
    the [put_record] calls it issued, and the records the stream took. *)
Record aws := {
  get_object_calls : list (string * string);
  put_record_calls : list put_record_request;
  stream : list put_record_request
}.

(** A computation that acts on the services and either returns a value or
    raises; what it did before raising stays done. *)
Definition io (A : Type) : Type := aws → aws * option A.

Definition io_ret {A} (a : A) : io A := λ w, (w, Some a).

Definition io_bind {A B} (m : io A) (k : A → io B) : io B :=
  λ w, match m w with
       | (w', Some a) => k a w'
       | (w', None) => (w', None)
       end.

(** [try: m except Exception: log] *)
Definition try_except (m : io unit) : io unit :=
  λ w, (fst (m w), Some tt).

Declare Scope io_scope.
Delimit Scope io_scope with io.
Notation "x <- m ;; k" := (io_bind m (λ x, k))
  (at level 100, m at next level, right associativity) : io_scope.
Notation "m ;; k" := (io_bind m (λ _, k))
  (at level 100, right associativity) : io_scope.

(** [for x in xs: body(x)] *)
Fixpoint for_each {A} (body : A → io unit) (xs : list A) : io unit :=
  match xs with
  | [] => io_ret tt
  | x :: xs => (body x ;; for_each body xs)%io
  end.

Section ingestor.
#[local] Abbreviation row := (gmap string string).

(** The rows [csv.DictReader(StringIO(content))] yields, in order, and
    [json.dumps(row)]. *)
Variable DictReader : string → list row.
Variable json_dumps : row → string.

(** The bucket contents as [response['Body'].read().decode('utf-8')]
    gives them; an object that is missing or is not UTF-8 has no entry. *)
Variable s3_objects : gmap (string * string) string.

(** Whether the stream takes a request; a refused request raises in
    [put_record]. *)
Variable kinesis_accepts : put_record_request → bool.

Definition get_object (Bucket Key : string) : io string :=
  λ w, ({| get_object_calls := get_object_calls w ++ [(Bucket, Key)];
           put_record_calls := put_record_calls w;
           stream := stream w |},
        s3_objects !! (Bucket, Key)).

Definition put_record (request : put_record_request) : io unit :=
  λ w, ({| get_object_calls := get_object_calls w;
           put_record_calls := put_record_calls w ++ [request];
           stream := if kinesis_accepts request
                     then stream w ++ [request] else stream w |},
        if kinesis_accepts request then Some tt else None).

(** The request the loop body builds for a row:
    [trip_id = row.get('trip_id', 'unknown')],
    [Data=json.dumps(row)], [PartitionKey=trip_id]. *)
Definition request_of_row (stream_name : string) (row : row)
  : put_record_request :=
  let trip_id := default "unknown" (row !! "trip_id") in
  {| StreamName := stream_name;
     Data := json_dumps row;
     PartitionKey := trip_id |}.

(** The body of the [try] block, for one notification. *)
Definition send_file (stream_name : string) (record : s3_event_record)
  : io unit :=
  (content <- get_object (bucket_name record) (object_key record) ;;
   for_each (λ row, put_record (request_of_row stream_name row))
            (DictReader content))%io.

Definition not_configured : gmap string string :=
  {[ "status" := "error"; "message" := "Stream name not configured" ]}.

Definition done : gmap string string := {[ "status" := "done" ]}.

(** [lambda_handler(event, context)]: [stream_name] is
    [os.environ.get('KINESIS_STREAM_NAME')] and [Records] is
    [event.get('Records', [])].  [not stream_name] holds of [None] and of
    the empty string. *)
Definition lambda_handler (stream_name : option string)
    (Records : list s3_event_record) : io (gmap string string) :=
  match stream_name with
  | None | Some "" => io_ret not_configured
  | Some stream_name =>
      (for_each (λ record, try_except (send_file stream_name record))
                Records ;;
       io_ret done)%io
  end.

(** *** Vocabulary of the properties *)

(** The rows of the file a notification names; none when the file cannot
    be fetched. *)
Definition rows_of (record : s3_event_record) : list row :=
  from_option DictReader []
    (s3_objects !! (bucket_name record, object_key record)).

(** The services after some more [get_object] and [put_record] calls, of
    which the stream took some. *)
Definition after_calls (w : aws) (gets : list (string * string))
    (puts taken : list put_record_request) : aws :=
  {| get_object_calls := get_object_calls w ++ gets;
     put_record_calls := put_record_calls w ++ puts;
     stream := stream w ++ taken |}.

(** The rows of a file the row loop reaches: those up to and including the
    first one whose request the stream refuses; and the rows among them
    whose request the stream takes. *)
Fixpoint attempted_rows (stream_name : string) (rows : list row) : list row :=
  match rows with
  | [] => []
  | r :: rows =>
      if kinesis_accepts (request_of_row stream_name r)
      then r :: attempted_rows stream_name rows
      else [r]
  end.

Fixpoint taken_rows (stream_name : string) (rows : list row) : list row :=
  match rows with
  | [] => []
  | r :: rows =>
      if kinesis_accepts (request_of_row stream_name r)
      then r :: taken_rows stream_name rows
      else []
  end.

End ingestor.

End Ingestor.

(** ** The Aggregator: [lambda_functions/aggregator/app.py] *)

Module Aggregator.

(** A [pandas.Timestamp], by its fields. *)
Record Timestamp := {
  year : nat;
  month : nat;
  day : nat;
  hour : nat;
  minute : nat;
  second : nat;
  nanosecond : nat
}.

#[global] Instance Timestamp_eq_dec : EqDecision Timestamp.
Proof. solve_decision. Defined.

Definition fields (t : Timestamp) : list nat :=
  [year t; month t; day t; hour t; minute t; second t; nanosecond t].

(** Chronological order: the fields compared from the year down. *)
Fixpoint lex_leb (l1 l2 : list nat) : bool :=
  match l1, l2 with
  | [], _ => true
  | _ :: _, [] => false
  | x :: l1, y :: l2 =>
      if (x <? y)%nat then true
      else if (y <? x)%nat then false
      else lex_leb l1 l2
  end.

Definition ts_le (a b : Timestamp) : Prop := lex_leb (fields a) (fields b) = true.

#[global] Instance ts_le_dec : RelDecision ts_le.
Proof. intros a b. unfold ts_le. apply _. Defined.

(** Decimal digits, zero padded, as [strftime] prints a field. *)
Definition digit (n : nat) : ascii := ascii_of_nat (48 + n `mod` 10).

Definition pad2 (n : nat) : string :=
  String (digit (n `div` 10)) (String (digit n) "").

Definition pad4 (n : nat) : string :=
  String (digit (n `div` 1000)) (String (digit (n `div` 100)) (pad2 n)).

(** [ts.strftime('%Y-%m-%d')] *)
Definition strftime_Ymd (ts : Timestamp) : string :=
  pad4 (year ts) +:+ "-" +:+ pad2 (month ts) +:+ "-" +:+ pad2 (day ts).

(** The arguments of one [s3.put_object] call. *)
Record put_object_request := {
  Bucket : string;
  Key : string;
  Body : string;
  ContentType : string
}.

(** The bucket after a series of [put_object] calls: a later write to a key
    replaces the object an earlier one left there. *)
Definition put_objects (bucket : gmap string string)
    (requests : list put_object_request) : gmap string string :=
  foldl (λ objects request, <[Key request := Body request]> objects)
        bucket requests.

Section aggregator.
Context {value : Type}.

#[local] Abbreviation item := (gmap string value).

(** The numbers of a [float64] column, with the operations the
    aggregations use: zero and addition for [sum], division by a count
    for [mean], and the larger and the smaller of two for [max], [min]. *)
Context {num : Type}.
Variable num_zero : num.
Variable num_add : num → num → num.
Variable num_div : num → nat → num.
Variable num_max : num → num → num.
Variable num_min : num → num → num.

(** [pd.to_numeric(..., errors='coerce')] on one value: [None] is the
    missing marker NaN. *)
Variable to_numeric : value → option num.

(** [pd.to_datetime] on one value: [None] when it raises, [Some None]
    for the missing marker NaT. *)
Variable to_datetime : value → option (option Timestamp).

(** One row of [kpis] after [reset_index()]; a statistic that pandas
    reports as NaN is [None]. *)
Record kpi := {
  pickup_datetime : Timestamp;
  total_fare : num;
  count_trips : nat;
  average_fare : option num;
  max_fare : option num;
  min_fare : option num
}.

(** [row.to_json()] *)
Variable to_json : kpi → string.

(** The filter of [scan_all_items]:
    [Attr('fare_amount').exists() & Attr('estimated_fare_amount').exists()] *)
Definition filter_expression (it : item) : Prop :=
  is_Some (it !! "fare_amount") ∧ is_Some (it !! "estimated_fare_amount").

(** [scan_all_items()]: the table is read page by page, each [table.scan]
    returning the items of the next page that pass the filter, until no
    [LastEvaluatedKey] is left. *)
Definition scan_all_items (pages : list (list item)) : list item :=
  foldl (λ items page, items ++ filter filter_expression page) [] pages.

(** The same function with its loop spelled out.  A response of
    [table.scan] carries the matching items of one page and, unless the
    page is the last, the key to start the next scan from. *)
Record scan_response := {
  Items : list item;
  LastEvaluatedKey : option nat
}.

(** [table.scan(FilterExpression=..., ExclusiveStartKey=...)] on a table
    that is read in the pages [pages]; the key of a page is its index. *)
Definition table_scan (pages : list (list item))
    (ExclusiveStartKey : option nat) : scan_response :=
  let i := default 0 ExclusiveStartKey in
  {| Items := filter filter_expression (default [] (pages !! i));
     LastEvaluatedKey :=
       if decide (S i < length pages) then Some (S i) else None |}.

(** The [while True] loop of [scan_all_items], against any [scan]; the
    fuel bounds the number of iterations, and running out of it is [None]. *)
Fixpoint scan_loop (fuel : nat) (scan : option nat → scan_response)
    (items : list item) (last_evaluated_key : option nat)
  : option (list item) :=
  match fuel with
  | 0 => None
  | S fuel =>
      let response := scan last_evaluated_key in
      let items := items ++ Items response in
      match LastEvaluatedKey response with
      | None => Some items
      | Some key => scan_loop fuel scan items (Some key)
      end
  end.

(** [pd.DataFrame(items)[name]]: a cell is missing where the item lacks
    the attribute; the lookup raises when no item has it. *)
Definition column (name : string) (items : list item)
  : option (list (option value)) :=
  if decide (Exists (λ it : item, is_Some (it !! name)) items)
  then Some ((λ it : item, it !! name) <$> items)
  else None.

(** The five aggregations over the cells of one group; all of them skip
    missing cells. *)
Definition agg_sum (xs : list (option num)) : num :=
  foldl num_add num_zero (omap id xs).

Definition agg_count (xs : list (option num)) : nat :=
  length (omap id xs).

Definition agg_mean (xs : list (option num)) : option num :=
  match agg_count xs with
  | 0 => None
  | S _ => Some (num_div (agg_sum xs) (agg_count xs))
  end.

Definition agg_max (xs : list (option num)) : option num :=
  match omap id xs with
  | [] => None
  | x :: l => Some (foldl num_max x l)
  end.

Definition agg_min (xs : list (option num)) : option num :=
  match omap id xs with
  | [] => None
  | x :: l => Some (foldl num_min x l)
  end.

(** [df.groupby('pickup_datetime')]: one group per distinct timestamp in
    the column, in ascending order; rows whose timestamp is missing belong
    to no group. *)
Definition groupby (rows : list (option Timestamp * option num))
  : list (Timestamp * list (option num)) :=
  let keys := merge_sort ts_le (remove_dups (omap fst rows)) in
  (λ k, (k, snd <$> filter (λ r, r.1 = Some k) rows)) <$> keys.

(** [.agg(total_fare=..., ...).reset_index()], for one group. *)
Definition agg (group : Timestamp * list (option num)) : kpi :=
  {| pickup_datetime := group.1;
     total_fare := agg_sum group.2;
     count_trips := agg_count group.2;
     average_fare := agg_mean group.2;
     max_fare := agg_max group.2;
     min_fare := agg_min group.2 |}.

(** From the scanned items to the rows of [kpis]. *)
Definition compute_kpis (items : list item) : option (list kpi) :=
  fare_amount ← column "fare_amount" items;
  let fare_amount := (λ cell, cell ≫= to_numeric) <$> fare_amount in
  pickup_datetime ← column "pickup_datetime" items;
  pickup_datetime ←
    mapM (λ cell, from_option to_datetime (Some None) cell) pickup_datetime;
  Some (agg <$> groupby (zip pickup_datetime fare_amount)).

(** The body of the upload loop, for one row of [kpis]. *)
Definition upload (env : gmap string string) (row : kpi)
  : option put_object_request :=
  let date_str := strftime_Ymd (pickup_datetime row) in
  let filename := "kpis/date=" +:+ date_str +:+ "/kpi.json" in
  bucket ← env !! "ATHENA_BUCKET_NAME";
  Some {| Bucket := bucket;
          Key := filename;
          Body := to_json row;
          ContentType := "application/json" |}.

(** [lambda_handler(event, context)] on the environment [env] and the
    table [pages]: [None] when the handler raises (the [except] branch logs
    and raises again), otherwise the [put_object] calls it made, in order.
    Every step that can raise comes before the first [put_object] call;
    [put_object] itself is taken to succeed. *)
Definition lambda_handler (env : gmap string string)
    (pages : list (list item)) : option (list put_object_request) :=
  _ ← env !! "DYNAMODB_TABLE_NAME";
  let items := scan_all_items pages in
  match items with
  | [] => Some []
  | _ :: _ =>
      kpis ← compute_kpis items;
      mapM (upload env) kpis
  end.

(** *** Vocabulary of the properties *)

(** The timestamp of an item's [pickup_datetime]; none when the attribute
    is missing or is NaT. *)
Definition timestamp_of (it : item) : option Timestamp :=
  v ← it !! "pickup_datetime"; default None (to_datetime v).

(** [pd.to_datetime] does not raise on the item's [pickup_datetime]. *)
Definition timestamp_parses (it : item) : Prop :=
  is_Some (from_option to_datetime (Some None) (it !! "pickup_datetime")).

(** The number of an item's [fare_amount]; none when it is not a number. *)
Definition fare_of (it : item) : option num :=
  it !! "fare_amount" ≫= to_numeric.

(** The items whose timestamp is exactly [ts], and the row of [kpis]
    computed from them. *)
Definition group_of (ts : Timestamp) (items : list item) : list item :=
  filter (λ it, timestamp_of it = Some ts) items.

Definition kpi_of (ts : Timestamp) (items : list item) : kpi :=
  agg (ts, fare_of <$> group_of ts items).

(** The distinct timestamps of the items, in ascending order. *)
Definition timestamps (items : list item) : list Timestamp :=
  merge_sort ts_le (remove_dups (omap timestamp_of items)).

(** The [put_object] call for a row of [kpis]. *)
Definition written (bucket : string) (row : kpi) : put_object_request :=
  {| Bucket := bucket;
     Key := "kpis/date=" +:+ strftime_Ymd (pickup_datetime row)
              +:+ "/kpi.json";
     Body := to_json row;
     ContentType := "application/json" |}.

(** The [put_object] call for a group whose fares are the numbers
    [fares], with the five statistics spelled out. *)
Definition object_of (bucket : string) (ts : Timestamp) (fares : list num)
  : put_object_request :=
  let total := foldl num_add num_zero fares in
  {| Bucket := bucket;
     Key := "kpis/date=" +:+ strftime_Ymd ts +:+ "/kpi.json";
     Body :=
       to_json
         {| pickup_datetime := ts;
            total_fare := total;
            count_trips := length fares;
            average_fare :=
              match fares with
              | [] => None
              | _ :: _ => Some (num_div total (length fares))
              end;
            max_fare :=
              match fares with
              | [] => None
              | x :: l => Some (foldl num_max x l)
              end;
            min_fare :=
              match fares with
              | [] => None
              | x :: l => Some (foldl num_min x l)
              end |};
     ContentType := "application/json" |}.

End aggregator.

End Aggregator.

(** ** Concrete codecs

    Small implementations of the library functions the handlers are
    parametrised by.  They cover the texts of the examples below: ASCII
    payloads, JSON objects whose members are strings, comma-separated files
    without quoting, decimal numerals and ISO timestamps. *)

Module Sample.

(** *** Base64, as Kinesis hands the [Data] blob to the consumer *)

Definition b64_alphabet : string :=
  "ABCDEFGHIJKLMNOPQRSTUVWXYZabcdefghijklmnopqrstuvwxyz0123456789+/".

(** Sextet 64 stands for the padding character. *)
Definition sextet_char (n : N) : ascii :=
  default "="%char (String.get (N.to_nat n) b64_alphabet).

Definition char_sextet (c : ascii) : option N :=
  if decide (c = "="%char) then Some 64%N
  else N.of_nat <$> String.index 0 (String c "") b64_alphabet.

Fixpoint b64_sextets (bytes : list N) : list N :=
  match bytes with
  | [] => []
  | [a] => [a `div` 4; (a `mod` 4) * 16; 64; 64]
  | [a; b] => [a `div` 4; (a `mod` 4) * 16 + b `div` 16; (b `mod` 16) * 4; 64]
  | a :: b :: c :: rest =>
      [a `div` 4; (a `mod` 4) * 16 + b `div` 16;
       (b `mod` 16) * 4 + c `div` 64; c `mod` 64] ++ b64_sextets rest
  end%N.

Fixpoint b64_bytes (sextets : list N) : option (list N) :=
  match sextets with
  | [] => Some []
  | a :: b :: c :: d :: rest =>
      if decide (a = 64 ∨ b = 64)%N then None
      else if decide (c = 64)%N then
        if decide (d = 64%N ∧ rest = []) then Some [a * 4 + b `div` 16] else None
      else if decide (d = 64)%N then
        if decide (rest = [])
        then Some [a * 4 + b `div` 16; (b `mod` 16) * 16 + c `div` 4]
        else None
      else
        bytes ← b64_bytes rest;
        Some ([a * 4 + b `div` 16; (b `mod` 16) * 16 + c `div` 4;
               (c `mod` 4) * 64 + d] ++ bytes)
  | _ => None
  end%N.

Definition b64encode (s : string) : string :=
  String.string_of_list_ascii
    (sextet_char <$> b64_sextets (N_of_ascii <$> String.list_ascii_of_string s)).

(** [base64.b64decode(data).decode('utf-8')]; only ASCII text decodes. *)
Definition b64decode_utf8 (data : string) : option string :=
  sextets ← mapM char_sextet (String.list_ascii_of_string data);
  bytes ← b64_bytes sextets;
  if decide (Forall (λ b, b < 128)%N bytes)
  then Some (String.string_of_list_ascii (ascii_of_N <$> bytes))
  else None.

(** *** JSON objects with string members *)

Definition quote : ascii := "034"%char.
Definition backslash : ascii := "092"%char.

Fixpoint json_escape (s : list ascii) : list ascii :=
  match s with
  | [] => []
  | c :: s =>
      if decide (c = quote ∨ c = backslash)
      then backslash :: c :: json_escape s
      else c :: json_escape s
  end.

Definition json_string (s : string) : list ascii :=
  quote :: json_escape (String.list_ascii_of_string s) ++ [quote].

Definition json_member (kv : string * string) : list ascii :=
  json_string kv.1 ++ String.list_ascii_of_string ": " ++ json_string kv.2.

Fixpoint json_members (kvs : list (string * string)) : list ascii :=
  match kvs with
  | [] => []
  | [kv] => json_member kv
  | kv :: kvs => json_member kv ++ String.list_ascii_of_string ", " ++ json_members kvs
  end.

(** [json.dumps(row)] *)
Definition json_dumps (row : gmap string string) : string :=
  String.string_of_list_ascii
    (String.list_ascii_of_string "{" ++ json_members (map_to_list row)
       ++ String.list_ascii_of_string "}").

Fixpoint skip_ws (s : list ascii) : list ascii :=
  match s with
  | c :: s' => if decide (c = " "%char) then skip_ws s' else s
  | [] => []
  end.

(** The text after an opening quote: the string it starts, and the rest. *)
Fixpoint parse_string (s : list ascii) : option (string * list ascii) :=
  match s with
  | [] => None
  | c :: s =>
      if decide (c = quote) then Some ("", s)
      else if decide (c = backslash) then
        match s with
        | c' :: s => '(str, rest) ← parse_string s; Some (String c' str, rest)
        | [] => None
        end
      else '(str, rest) ← parse_string s; Some (String c str, rest)
  end.

Definition parse_member (s : list ascii)
  : option ((string * string) * list ascii) :=
  match skip_ws s with
  | q :: s =>
      if decide (q = quote) then
        '(k, s) ← parse_string s;
        match skip_ws s with
        | colon :: s =>
            if decide (colon = ":"%char) then
              match skip_ws s with
              | q :: s =>
                  if decide (q = quote) then
                    '(v, s) ← parse_string s; Some ((k, v), s)
                  else None
              | [] => None
              end
            else None
        | [] => None
        end
      else None
  | [] => None
  end.

(** The members after the first, up to the closing brace. *)
Fixpoint parse_more (fuel : nat) (s : list ascii)
  : option (list (string * string)) :=
  match fuel with
  | 0 => None
  | S fuel =>
      match skip_ws s with
      | c :: s =>
          if decide (c = "}"%char) then
            if decide (skip_ws s = []) then Some [] else None
          else if decide (c = ","%char) then
            '(kv, s) ← parse_member s;
            kvs ← parse_more fuel s;
            Some (kv :: kvs)
          else None
      | [] => None
      end
  end.

Definition parse_object (s : list ascii) : option (list (string * string)) :=
  match skip_ws s with
  | c :: s =>
      if decide (c = "{"%char) then
        match skip_ws s with
        | c' :: s' =>
            if decide (c' = "}"%char) then
              if decide (skip_ws s' = []) then Some [] else None
            else
              '(kv, s) ← parse_member (c' :: s');
              kvs ← parse_more (length s) s;
              Some (kv :: kvs)
        | [] => None
        end
      else None
  | [] => None
  end.

(** [json.loads]: objects with string members, and the literals. *)
Definition json_loads (text : string) : option (@Merger.json string) :=
  if decide (text ∈ ["null"; "true"; "false"; "[]"]) then Some Merger.JOther
  else
    kvs ← parse_object (String.list_ascii_of_string text);
    Some (Merger.JObject (foldl (λ d kv, <[kv.1 := kv.2]> d) ∅ kvs)).

(** *** Comma-separated files *)

Definition newline : ascii := "010"%char.

Fixpoint split_on (sep : ascii) (s : list ascii) : list (list ascii) :=
  match s with
  | [] => [[]]
  | c :: s =>
      if decide (c = sep) then [] :: split_on sep s
      else match split_on sep s with
           | cell :: cells => (c :: cell) :: cells
           | [] => [[c]]
           end
  end.

Definition cells (line : list ascii) : list string :=
  String.string_of_list_ascii <$> split_on ","%char line.

(** [csv.DictReader(StringIO(content))]: the first line names the columns,
    every later line that is not empty is a row.  Lines with fewer or more
    cells than the header, for which the reader fills in [None] or
    collects a list, are outside the model; the examples have none. *)
Definition DictReader (content : string) : list (gmap string string) :=
  match filter (λ line, line ≠ [])
               (split_on newline (String.list_ascii_of_string content)) with
  | [] => []
  | header :: lines =>
      (λ line, list_to_map (zip (cells header) (cells line))) <$> lines
  end.

(** The text of a file, from its lines. *)
Definition file (lines : list string) : string :=
  foldr (λ line text, line +:+ String newline text) "" lines.

(** *** The stream's limits on a request *)

(** A partition key has between 1 and 256 characters. *)
Definition kinesis_accepts (request : Ingestor.put_record_request) : bool :=
  bool_decide (1 ≤ String.length (Ingestor.PartitionKey request) ≤ 256)%nat.

(** *** The table's limits on a call *)

(** A key is a string that is not empty; an item is taken when its key
    is. *)
Definition get_item_accepts (k : string) : bool := bool_decide (k ≠ "").

Definition put_item_accepts (it : gmap string string) : bool :=
  bool_decide (it !! "id" ≠ Some "").

(** A table that also limits the size of an item: the characters of its
    values may not be more than twenty. *)
Definition put_item_accepts_small (it : gmap string string) : bool :=
  put_item_accepts it
  && bool_decide
       (sum_list (String.length ∘ snd <$> map_to_list it) ≤ 20)%nat.

(** *** Numbers and timestamps *)

Definition digit_value (c : ascii) : option N :=
  let n := N_of_ascii c in
  if decide (48 ≤ n ≤ 57)%N then Some (n - 48)%N else None.

Definition parse_digits (s : list ascii) : option N :=
  if decide (s = []) then None
  else foldl (λ acc c, n ← acc; d ← digit_value c; Some (10 * n + d)%N)
             (Some 0%N) s.

Definition parse_nat (s : list ascii) : option nat :=
  N.to_nat <$> parse_digits s.

(** Exact rationals in lowest terms stand for the column's numbers. *)
Definition num_add (x y : Q) : Q := Qred (x + y).
Definition num_div (x : Q) (n : nat) : Q := Qred (x / inject_Z (Z.of_nat n)).
Definition num_max (x y : Q) : Q := if Qle_bool x y then y else x.
Definition num_min (x y : Q) : Q := if Qle_bool x y then x else y.

(** [pd.to_numeric(..., errors='coerce')] on a string: a decimal numeral
    gives its value, anything else the missing marker. *)
Definition to_numeric (v : string) : option Q :=
  let s := String.list_ascii_of_string v in
  let '(negative, s) :=
    match s with
    | c :: s' => if decide (c = "-"%char) then (true, s') else (false, s)
    | [] => (false, s)
    end in
  q ← match split_on "."%char s with
      | [whole] => n ← parse_digits whole; Some (inject_Z (Z.of_N n))
      | [whole; frac] =>
          n ← parse_digits whole;
          f ← parse_digits frac;
          let scale := (10 ^ N.of_nat (length frac))%N in
          Some (Qred (Qmake (Z.of_N (n * scale + f))
                            (Pos.of_nat (N.to_nat scale))))
      | _ => None
      end;
  Some (if negative : bool then Qred (- q) else q).

(** [pd.to_datetime] on a string: [YYYY-MM-DDTHH:MM:SS] gives the
    timestamp, the empty string NaT, anything else raises. *)
Definition to_datetime (v : string)
  : option (option Aggregator.Timestamp) :=
  if decide (v = "") then Some None
  else
    match split_on "T"%char (String.list_ascii_of_string v) with
    | [date; time] =>
        match split_on "-"%char date, split_on ":"%char time with
        | [y; m; d], [h; mi; s] =>
            y ← parse_nat y; m ← parse_nat m; d ← parse_nat d;
            h ← parse_nat h; mi ← parse_nat mi; s ← parse_nat s;
            Some (Some {| Aggregator.year := y; Aggregator.month := m;
                          Aggregator.day := d; Aggregator.hour := h;
                          Aggregator.minute := mi; Aggregator.second := s;
                          Aggregator.nanosecond := 0 |})
        | _, _ => None
        end
    | _ => None
    end.

Definition show_num (x : Q) : string :=
  pretty (Qnum x) +:+ "/" +:+ pretty (Zpos (Qden x)).

Definition show_stat (x : option Q) : string :=
  from_option show_num "null" x.

(** [row.to_json()], as text that names each field. *)
Definition to_json (row : @Aggregator.kpi Q) : string :=
  let ts := Aggregator.pickup_datetime row in
  "{pickup_datetime: " +:+ Aggregator.strftime_Ymd ts
    +:+ "T" +:+ Aggregator.pad2 (Aggregator.hour ts)
    +:+ ":" +:+ Aggregator.pad2 (Aggregator.minute ts)
    +:+ ":" +:+ Aggregator.pad2 (Aggregator.second ts)
    +:+ ", total_fare: " +:+ show_num (Aggregator.total_fare row)
    +:+ ", count_trips: " +:+ pretty (Aggregator.count_trips row)
    +:+ ", average_fare: " +:+ show_stat (Aggregator.average_fare row)
    +:+ ", max_fare: " +:+ show_stat (Aggregator.max_fare row)
    +:+ ", min_fare: " +:+ show_stat (Aggregator.min_fare row) +:+ "}".

(** The record the consumer is handed for a payload sent with [put_record]. *)
Definition delivered (Data : string) : Merger.kinesis_record :=
  {| Merger.data := b64encode Data |}.

(** *** Example data *)

(** A trip as the file of requests has it, the same trip as the file of
    completions has it (with an [id] column of its own), and a row that
    names no trip. *)
Definition requested : gmap string string :=
  {[ "trip_id" := "t1";
     "pickup_datetime" := "2025-04-22T08:30:00";
     "estimated_fare_amount" := "22.0" ]}.

Definition completed : gmap string string :=
  {[ "trip_id" := "t1";
     "id" := "c-17";
     "fare_amount" := "20.0";
     "estimated_fare_amount" := "21.5" ]}.

Definition anonymous : gmap string string :=
  {[ "fare_amount" := "20.0" ]}.

Definition empty_table : @Merger.dynamodb string _ _ :=
  {| Merger.items := ∅; Merger.put_calls := [] |}.

Definition one_trip_table : @Merger.dynamodb string _ _ :=
  {| Merger.items := {[ "t0" := {[ "id" := "t0"; "fare_amount" := "9.5" ]} ]};
     Merger.put_calls := [] |}.

(** Two files: in the second the first row has an empty [trip_id]. *)
Definition s3_objects : gmap (string * string) string :=
  {[ ("rides", "trips.csv") :=
       file ["trip_id,fare_amount"; "t1,20.0"; "t2,25.0"];
     ("rides", "broken.csv") :=
       file ["trip_id,fare_amount"; ",10.0"; "t2,25.0"] ]}.

Definition trips_csv : Ingestor.s3_event_record :=
  {| Ingestor.bucket_name := "rides"; Ingestor.object_key := "trips.csv" |}.

Definition broken_csv : Ingestor.s3_event_record :=
  {| Ingestor.bucket_name := "rides"; Ingestor.object_key := "broken.csv" |}.

Definition nothing_done : Ingestor.aws :=
  {| Ingestor.get_object_calls := [];
     Ingestor.put_record_calls := [];
     Ingestor.stream := [] |}.

(** The three records of [tests/test_aggregation.py]. *)
Definition trip_0830 : gmap string string :=
  {[ "pickup_datetime" := "2025-04-22T08:30:00";
     "fare_amount" := "20.0";
     "estimated_fare_amount" := "22.0" ]}.

Definition trip_0900 : gmap string string :=
  {[ "pickup_datetime" := "2025-04-22T09:00:00";
     "fare_amount" := "25.0";
     "estimated_fare_amount" := "27.0" ]}.

Definition trip_1015 : gmap string string :=
  {[ "pickup_datetime" := "2025-04-22T10:15:00";
     "fare_amount" := "15.0";
     "estimated_fare_amount" := "17.0" ]}.

(** A trip whose fare is not a number, and one whose timestamp is not a
    timestamp. *)
Definition trip_bad_fare : gmap string string :=
  {[ "pickup_datetime" := "2025-04-22T08:30:00";
     "fare_amount" := "n/a";
     "estimated_fare_amount" := "22.0" ]}.



(** A table that holds a trip with a long note, a message that adds a
    rating to the trip, and one that empties the note. *)
Definition noted_table : @Merger.dynamodb string _ _ :=
  {| Merger.items :=
       {[ "t0" := {[ "id" := "t0"; "note" := "left at door" ]} ]};
     Merger.put_calls := [] |}.

Definition rated : gmap string string :=
  {[ "trip_id" := "t0"; "rating" := "five stars" ]}.

Definition note_removed : gmap string string :=
  {[ "trip_id" := "t0"; "note" := "" ]}.

(** A message that names the trip with the empty string. *)
Definition unnamed : gmap string string :=
  {[ "trip_id" := ""; "fare_amount" := "10.0" ]}.

Definition env : gmap string string :=
  {[ "DYNAMODB_TABLE_NAME" := "test-trips-table";
     "ATHENA_BUCKET_NAME" := "test-athena-bucket" ]}.

Definition at_time (h mi : nat) : Aggregator.Timestamp :=
  {| Aggregator.year := 2025; Aggregator.month := 4; Aggregator.day := 22;
     Aggregator.hour := h; Aggregator.minute := mi; Aggregator.second := 0;
     Aggregator.nanosecond := 0 |}.

(** What the handler writes for the three records. *)
Definition kpi_writes : list Aggregator.put_object_request :=
  (λ body, {| Aggregator.Bucket := "test-athena-bucket";
              Aggregator.Key := "kpis/date=2025-04-22/kpi.json";
              Aggregator.Body := body;
              Aggregator.ContentType := "application/json" |})
  <$> ["{pickup_datetime: 2025-04-22T08:30:00, total_fare: 20/1, count_trips: 1, average_fare: 20/1, max_fare: 20/1, min_fare: 20/1}";
       "{pickup_datetime: 2025-04-22T09:00:00, total_fare: 25/1, count_trips: 1, average_fare: 25/1, max_fare: 25/1, min_fare: 25/1}";
       "{pickup_datetime: 2025-04-22T10:15:00, total_fare: 15/1, count_trips: 1, average_fare: 15/1, max_fare: 15/1, min_fare: 15/1}"].

(** A later message of the trip [t0]. *)
Definition corrected : gmap string string :=
  {[ "trip_id" := "t0"; "fare_amount" := "11.0"; "tip" := "1.5" ]}.

(** The environment without the name of the bucket. *)
Definition env_without_bucket : gmap string string :=
  {[ "DYNAMODB_TABLE_NAME" := "test-trips-table" ]}.

End Sample.

(** C3, as the spec has it: every row of a fetched file whose own request
    the stream would take ends up in the stream. *)
Definition row_granular_tolerance : Prop :=
  ∀ (DictReader : string → list (gmap string string))
    (json_dumps : gmap string string → string)
    (s3_objects : gmap (string * string) string)
    (kinesis_accepts : Ingestor.put_record_request → bool)
    stream_name record content row w,
    stream_name ≠ "" →
    s3_objects !! (Ingestor.bucket_name record, Ingestor.object_key record)
    = Some content →
    row ∈ DictReader content →
    kinesis_accepts (Ingestor.request_of_row json_dumps stream_name row) = true →
    Ingestor.request_of_row json_dumps stream_name row
    ∈ Ingestor.stream
        (Ingestor.lambda_handler DictReader json_dumps s3_objects
           kinesis_accepts (Some stream_name) [record] w).1.

(** C8, as the spec has it: the handler issues one [put_record] call for
    every row of every file it fetched. *)
Definition one_append_per_parsed_row : Prop :=
  ∀ (DictReader : string → list (gmap string string))
    (json_dumps : gmap string string → string)
    (s3_objects : gmap (string * string) string)
    (kinesis_accepts : Ingestor.put_record_request → bool)
    stream_name Records w,
    stream_name ≠ "" →
    Ingestor.put_record_calls
      (Ingestor.lambda_handler DictReader json_dumps s3_objects
         kinesis_accepts (Some stream_name) Records w).1
    = Ingestor.put_record_calls w
        ++ (Ingestor.request_of_row json_dumps stream_name
              <$> (Records ≫= Ingestor.rows_of DictReader s3_objects)).

(** * Properties of the Merger *)

Section merger_properties.
Context {value : Type} `{Countable value}.
Variable b64decode_utf8 : string → option string.
Variable json_loads : string → option (@Merger.json value).
Variable get_item_accepts : value → bool.
Variable put_item_accepts : gmap string value → bool.

#[local] Abbreviation item := (gmap string value).
#[local] Abbreviation dynamodb := (@Merger.dynamodb value _ _).
#[local] Abbreviation try_record :=
  (Merger.try_record b64decode_utf8 json_loads get_item_accepts
     put_item_accepts).
#[local] Abbreviation process_record :=
  (Merger.process_record b64decode_utf8 json_loads get_item_accepts
     put_item_accepts).
#[local] Abbreviation lambda_handler :=
  (Merger.lambda_handler b64decode_utf8 json_loads get_item_accepts
     put_item_accepts).
#[local] Abbreviation decodes_to :=
  (Merger.decodes_to b64decode_utf8 json_loads).
#[local] Abbreviation lacks_trip_id :=
  (Merger.lacks_trip_id b64decode_utf8 json_loads).
#[local] Abbreviation trip_id_of :=
  (Merger.trip_id_of b64decode_utf8 json_loads).
#[local] Abbreviation payload_for :=
  (Merger.payload_for b64decode_utf8 json_loads).
#[local] Abbreviation merged_entry :=
  (Merger.merged_entry get_item_accepts put_item_accepts).
#[local] Abbreviation keyed_by_id := (@Merger.keyed_by_id value _ _).
#[local] Abbreviation last_sent := (@Merger.last_sent value).

Lemma merge_lookup_id (existing payload : item) trip_id :
  Merger.merge existing payload trip_id !! "id" = Some trip_id.
Proof. apply lookup_insert_eq. Qed.

Lemma merge_lookup_ne (existing payload : item) trip_id f :
  f ≠ "id" →
  Merger.merge existing payload trip_id !! f
  = match payload !! f with Some v => Some v | None => existing !! f end.
Proof.
  intros Hf. unfold Merger.merge.
  rewrite lookup_insert_ne by done.
  rewrite lookup_union. by destruct (payload !! f), (existing !! f).
Qed.

Lemma merge_dom (existing payload : item) trip_id :
  dom (Merger.merge existing payload trip_id)
  = {["id"]} ∪ dom payload ∪ dom existing.
Proof.
  unfold Merger.merge. rewrite dom_insert_L, dom_union_L.
  by rewrite (assoc_L (∪)).
Qed.

(** *** One record *)

Lemma decodes_to_payload_for record payload k :
  decodes_to record payload →
  payload !! "trip_id" = Some k →
  payload_for k record = Some payload ∧ trip_id_of record = Some k.
Proof.
  intros (d & Hd & Hp) Hk. unfold Merger.payload_for, Merger.trip_id_of.
  rewrite Hd. simpl. rewrite Hp. simpl. by rewrite decide_True.
Qed.

Lemma payload_for_trip_id k record payload :
  payload_for k record = Some payload → trip_id_of record = Some k.
Proof.
  unfold Merger.payload_for, Merger.trip_id_of.
  destruct (b64decode_utf8 _) as [d|]; [simpl|done].
  destruct (json_loads d) as [[fields|]|]; simpl; try done.
  by case_decide.
Qed.

(** What the [try] block does, by what it reads off the record. *)
Lemma try_record_eq record (table : dynamodb) :
  try_record record table
  = match trip_id_of record with
    | Some k =>
        match payload_for k record with
        | Some payload =>
            if get_item_accepts k
            then Merger.put_item put_item_accepts
                   (Merger.merge (default ∅ (Merger.items table !! k))
                      payload k) table
            else (table, None)
        | None => (table, None)
        end
    | None => (table, None)
    end.
Proof.
  unfold Merger.try_record, Merger.trip_id_of, Merger.payload_for.
  destruct (b64decode_utf8 _) as [d|]; [simpl|done].
  destruct (json_loads d) as [[fields|]|]; simpl; try done.
  destruct (fields !! "trip_id") as [k|] eqn:Hk; simpl; [|done].
  rewrite decide_True by done. unfold Merger.get_item.
  by destruct (get_item_accepts k).
Qed.

Lemma put_item_merge (existing payload : item) k (table : dynamodb) :
  Merger.put_item put_item_accepts (Merger.merge existing payload k) table
  = let merged_item := Merger.merge existing payload k in
    ({| Merger.items :=
          if put_item_accepts merged_item
          then <[k := merged_item]> (Merger.items table)
          else Merger.items table;
        Merger.put_calls := Merger.put_calls table ++ [merged_item] |},
     if put_item_accepts merged_item then Some tt else None).
Proof.
  unfold Merger.put_item. rewrite merge_lookup_id. cbv zeta.
  by destruct (put_item_accepts _).
Qed.

(** A record either leaves the stored items as they were, or carries a
    payload for a trip whose merged item the table takes under the trip's
    key. *)
Lemma process_record_cases record (table : dynamodb) :
  Merger.items (process_record table record) = Merger.items table ∨
  ∃ k payload,
    payload_for k record = Some payload ∧
    get_item_accepts k = true ∧
    let merged_item :=
      Merger.merge (default ∅ (Merger.items table !! k)) payload k in
    put_item_accepts merged_item = true ∧
    process_record table record
    = {| Merger.items := <[k := merged_item]> (Merger.items table);
         Merger.put_calls := Merger.put_calls table ++ [merged_item] |}.
Proof.
  unfold Merger.process_record. rewrite try_record_eq.
  destruct (trip_id_of record) as [k|]; [|by left].
  destruct (payload_for k record) as [payload|] eqn:Hp; [|by left].
  destruct (get_item_accepts k) eqn:Hget; [|by left].
  rewrite put_item_merge. cbv zeta.
  destruct (put_item_accepts _) eqn:Hput; [|by left].
  right. exists k, payload. by rewrite Hput.
Qed.

(** What one iteration does to the entry of a trip. *)
Lemma process_record_lookup k record (table : dynamodb) :
  Merger.items (process_record table record) !! k
  = match payload_for k record with
    | Some payload => merged_entry k (Merger.items table !! k) payload
    | None => Merger.items table !! k
    end.
Proof.
  unfold Merger.process_record. rewrite try_record_eq.
  destruct (payload_for k record) as [payload|] eqn:Hp.
  - rewrite (payload_for_trip_id _ _ _ Hp), Hp. unfold Merger.merged_entry.
    destruct (get_item_accepts k); [|done].
    rewrite put_item_merge. cbv zeta. simpl.
    destruct (put_item_accepts _); [|done]. by rewrite lookup_insert_eq.
  - destruct (trip_id_of record) as [k'|]; [|done].
    destruct (payload_for k' record) as [payload'|] eqn:Hp'; [|done].
    destruct (get_item_accepts k'); [|done].
    rewrite put_item_merge. cbv zeta. simpl.
    destruct (put_item_accepts _); [|done].
    rewrite lookup_insert_ne; [done|]. intros ->. congruence.
Qed.

(** What a batch does to the entry of a trip: it folds the payloads the
    batch carries for the trip into it. *)
Lemma handler_lookup k records (table : dynamodb) :
  Merger.items (foldl process_record table records) !! k
  = foldl (merged_entry k) (Merger.items table !! k)
          (omap (payload_for k) records).
Proof.
  revert table. induction records as [|r rs IH]; intros table; [done|].
  cbn [foldl]. rewrite IH, process_record_lookup. csimpl.
  by destruct (payload_for k r).
Qed.

Lemma process_record_put_calls record (table : dynamodb) :
  Merger.put_calls (process_record table record)
  = Merger.put_calls table
      ++ match trip_id_of record with
         | Some k =>
             match payload_for k record with
             | Some payload =>
                 if get_item_accepts k
                 then [Merger.merge (default ∅ (Merger.items table !! k))
                         payload k]
                 else []
             | None => []
             end
         | None => []
         end.
Proof.
  unfold Merger.process_record. rewrite try_record_eq.
  destruct (trip_id_of record) as [k|]; [|by rewrite app_nil_r].
  destruct (payload_for k record) as [payload|]; [|by rewrite app_nil_r].
  destruct (get_item_accepts k); [|by rewrite app_nil_r].
  by rewrite put_item_merge.
Qed.

Lemma process_record_skips record (table : dynamodb) :
  lacks_trip_id record → process_record table record = table.
Proof.
  intros (d & p & Hd & Hp & Hk).
  unfold Merger.process_record. rewrite try_record_eq.
  unfold Merger.trip_id_of. rewrite Hd. simpl. rewrite Hp. simpl.
  by rewrite Hk.
Qed.

(** *** A sequence of payloads for one trip *)

#[local] Abbreviation merge_all k :=
  (foldl (λ (acc payload : item), Merger.merge acc payload k)).

Lemma last_sent_cons f (payload : item) payloads :
  last_sent f (payload :: payloads)
  = match last_sent f payloads with
    | Some v => Some v
    | None => payload !! f
    end.
Proof.
  unfold Merger.last_sent.
  set (g := λ payload : item, payload !! f).
  change (omap g (payload :: payloads))
    with (match g payload with
          | Some v => v :: omap g payloads
          | None => omap g payloads
          end).
  change (payload !! f) with (g payload).
  generalize (omap g payloads). intros l.
  destruct (g payload) as [v|]; [|by destruct (last l)].
  destruct l as [|w l]; [done|]. rewrite last_cons_cons.
  destruct (last (w :: l)) eqn:E; [done|]. by apply last_None in E.
Qed.

Lemma merge_all_lookup_id k (acc : item) payloads :
  payloads ≠ [] → merge_all k acc payloads !! "id" = Some k.
Proof.
  revert acc. induction payloads as [|p ps IH]; [done|]. intros acc _.
  simpl. destruct ps as [|q ps]; [apply merge_lookup_id|].
  by apply IH.
Qed.

Lemma merge_all_lookup_ne k (acc : item) payloads f :
  f ≠ "id" →
  merge_all k acc payloads !! f
  = match last_sent f payloads with
    | Some v => Some v
    | None => acc !! f
    end.
Proof.
  intros Hf. revert acc. induction payloads as [|p ps IH]; intros acc.
  { done. }
  simpl. rewrite IH, last_sent_cons, merge_lookup_ne by done.
  by destruct (last_sent f ps).
Qed.



(** The entry of a trip whose key the table refuses stays as it is. *)
Lemma merged_entries_refused k (entry : option item) payloads :
  get_item_accepts k = false →
  foldl (merged_entry k) entry payloads = entry.
Proof.
  intros Hget. induction payloads as [|p ps IH]; [done|].
  cbn [foldl]. unfold Merger.merged_entry at 2. by rewrite Hget.
Qed.



Lemma process_record_keyed record (table : dynamodb) :
  keyed_by_id table → keyed_by_id (process_record table record).
Proof.
  intros Hkeyed.
  destruct (process_record_cases record table)
    as [Hsame|(k & payload & _ & _ & _ & ->)].
  { intros k it. rewrite Hsame. apply Hkeyed. }
  intros k' it. simpl. rewrite lookup_insert.
  case_decide as Hkk; [|by apply Hkeyed].
  intros [= <-]. subst. apply merge_lookup_id.
Qed.

Lemma process_record_keeps_id record (table : dynamodb) k it :
  keyed_by_id table →
  Merger.items table !! k = Some it →
  ∃ it', Merger.items (process_record table record) !! k = Some it' ∧
         it' !! "id" = it !! "id".
Proof.
  intros Hkeyed Hit.
  destruct (process_record_cases record table)
    as [Hsame|(k' & payload & _ & _ & _ & ->)].
  { exists it. by rewrite Hsame. }
  simpl. rewrite lookup_insert.
  case_decide as Hkk; [|by exists it].
  subst k'. eexists. split; [done|].
  by rewrite merge_lookup_id, (Hkeyed _ _ Hit).
Qed.

(** Every change of the stored items is a write for the record's own
    trip. *)
Lemma process_record_changes record (table : dynamodb) k it :
  Merger.items (process_record table record) !! k = Some it →
  Merger.items table !! k ≠ Some it →
  trip_id_of record = Some k ∧ it !! "id" = Some k.
Proof.
  rewrite process_record_lookup.
  destruct (payload_for k record) as [payload|] eqn:Hp; [|done].
  unfold Merger.merged_entry.
  destruct (get_item_accepts k && put_item_accepts _); [|done].
  intros [= <-] _. split; [by eapply payload_for_trip_id|].
  apply merge_lookup_id.
Qed.

(** *** The claims *)


(** C6.  A record whose payload has no [trip_id] changes nothing, issues
    no [put_item] call, and the batch goes on as if the record were not
    there; the handler returns [{"status": "ok"}]. *)
Theorem record_without_trip_id_is_skipped
    record before after (table : dynamodb) :
  lacks_trip_id record →
  (∀ table0 : dynamodb, process_record table0 record = table0) ∧
  lambda_handler (before ++ record :: after) table
  = lambda_handler (before ++ after) table ∧
  (lambda_handler (before ++ record :: after) table).2
  = {[ "status" := "ok" ]}.
Proof.
  intros Hlacks. split_and!.
  - intros table0. by apply process_record_skips.
  - unfold Merger.lambda_handler. f_equal.
    rewrite !foldl_app. simpl. by rewrite process_record_skips.
  - done.
Qed.

(** C9.  In a table that holds every item under its [id], the handler
    keeps it so: after a batch every item is still stored under its [id],
    and every item that was there is still there with the [id] it had.
    Whatever a record changes in the table is the entry of the [trip_id]
    its payload names, and the item it leaves there has that [trip_id] as
    its [id], whatever [id] the payload carried; and a record whose calls
    the table takes does leave such an item, with one [put_item] call. *)
Theorem id_is_present_and_immutable records (table : dynamodb) :
  keyed_by_id table →
  keyed_by_id (lambda_handler records table).1 ∧
  (∀ k it, Merger.items table !! k = Some it →
     ∃ it', Merger.items (lambda_handler records table).1 !! k = Some it' ∧
            it' !! "id" = it !! "id") ∧
  (∀ record (table0 : dynamodb) k it,
     Merger.items (process_record table0 record) !! k = Some it →
     Merger.items table0 !! k ≠ Some it →
     trip_id_of record = Some k ∧ it !! "id" = Some k) ∧
  (∀ record payload trip_id (table0 : dynamodb),
     decodes_to record payload →
     payload !! "trip_id" = Some trip_id →
     get_item_accepts trip_id = true →
     (∀ it : item, it !! "id" = Some trip_id → put_item_accepts it = true) →
     ∃ merged_item,
       Merger.put_calls (process_record table0 record)
       = Merger.put_calls table0 ++ [merged_item] ∧
       Merger.items (process_record table0 record) !! trip_id
       = Some merged_item ∧
       merged_item !! "id" = Some trip_id ∧
       ∀ f, f ≠ "id" → is_Some (payload !! f) →
            merged_item !! f = payload !! f).
Proof.
  intros Hkeyed. simpl. split_and!.
  - revert table Hkeyed. induction records as [|r rs IH]; [done|].
    intros table Hkeyed. simpl. apply IH. by apply process_record_keyed.
  - revert table Hkeyed. induction records as [|r rs IH].
    { intros table _ k it Hit. by exists it. }
    intros table Hkeyed k it Hit. simpl.
    destruct (process_record_keeps_id r table k it Hkeyed Hit)
      as (it1 & Hit1 & Hid1).
    destruct (IH _ (process_record_keyed r table Hkeyed) k it1 Hit1)
      as (it' & Hit' & Hid').
    exists it'. split; [done|]. by rewrite Hid'.
  - apply process_record_changes.
  - intros record payload trip_id table0 Hdec Hk Hget Hput.
    destruct (decodes_to_payload_for _ _ _ Hdec Hk) as [Hp Htrip].
    eexists. split_and!.
    + by rewrite process_record_put_calls, Htrip, Hp, Hget.
    + rewrite process_record_lookup, Hp. unfold Merger.merged_entry.
      by rewrite Hget, Hput by apply merge_lookup_id.
    + apply merge_lookup_id.
    + intros f Hf [v Hv]. rewrite merge_lookup_ne by done. by rewrite Hv.
Qed.

End merger_properties.

Section round_trip.
Context {value : Type} `{Countable value}.
Variable b64decode_utf8 : string → option string.
Variable json_loads : string → option (@Merger.json value).
Variable get_item_accepts : value → bool.
Variable put_item_accepts : gmap string value → bool.
(** [json.dumps] of the producer, and the base64 encoding of the blob in
    the event the consumer is handed. *)
Variable json_dumps : gmap string string → string.
Variable b64encode : string → string.
(** The attribute value of a JSON string. *)
Variable str : string → value.

(** C2.  A row with a [trip_id] is serialised by the Ingestor into the
    [Data] of its request, with the [trip_id] as partition key.  When the
    consumer's decoding undoes the encoding of that blob and [json.loads]
    reads the serialised row back as the row's fields, and the table takes
    the two calls, the Merger stores in a table that had no item for the
    trip exactly the row's fields with [id] set to the [trip_id]. *)
Theorem ingested_row_round_trips
    stream_name (row : gmap string string) trip_id
    (table : @Merger.dynamodb value _ _) :
  let request := Ingestor.request_of_row json_dumps stream_name row in
  let record := Merger.delivered b64encode (Ingestor.Data request) in
  row !! "trip_id" = Some trip_id →
  b64decode_utf8 (b64encode (json_dumps row)) = Some (json_dumps row) →
  json_loads (json_dumps row) = Some (Merger.JObject (str <$> row)) →
  get_item_accepts (str trip_id) = true →
  put_item_accepts (<["id" := str trip_id]> (str <$> row)) = true →
  Merger.items table !! str trip_id = None →
  Ingestor.PartitionKey request = trip_id ∧
  Merger.items
    (Merger.lambda_handler b64decode_utf8 json_loads get_item_accepts
       put_item_accepts [record] table).1 !! str trip_id
  = Some (<["id" := str trip_id]> (str <$> row)) ∧
  Merger.put_calls
    (Merger.lambda_handler b64decode_utf8 json_loads get_item_accepts
       put_item_accepts [record] table).1
  = Merger.put_calls table ++ [<["id" := str trip_id]> (str <$> row)].
Proof.
  intros request record Hk Hb64 Hjson Hget Hput Hnone.
  assert (Merger.decodes_to b64decode_utf8 json_loads record (str <$> row))
    as Hdec.
  { exists (json_dumps row). split; [exact Hb64|exact Hjson]. }
  assert ((str <$> row) !! "trip_id" = Some (str trip_id)) as Hk'
    by (by rewrite lookup_fmap, Hk).
  destruct (decodes_to_payload_for _ _ _ _ _ Hdec Hk') as [Hp Htrip].
  assert (Merger.merge ∅ (str <$> row) (str trip_id)
          = <["id" := str trip_id]> (str <$> row)) as Hmerge.
  { unfold Merger.merge. by rewrite (right_id_L ∅ (∪)). }
  split_and!.
  - unfold request, Ingestor.request_of_row. simpl. by rewrite Hk.
  - simpl. rewrite process_record_lookup, Hp, Hnone.
    unfold Merger.merged_entry. simpl default.
    by rewrite Hmerge, Hget, Hput.
  - simpl. rewrite process_record_put_calls, Htrip, Hp, Hget, Hnone.
    simpl default. by rewrite Hmerge.
Qed.

End round_trip.
(** ** The Merger on the example data *)

#[local] Abbreviation sample_merger :=
  (Merger.lambda_handler Sample.b64decode_utf8 Sample.json_loads
     Sample.get_item_accepts Sample.put_item_accepts).

(** The example table takes every item whose [id] is not empty. *)
Lemma sample_put_item_accepts k (it : gmap string string) :
  k ≠ "" → it !! "id" = Some k → Sample.put_item_accepts it = true.
Proof.
  intros Hk Hid. unfold Sample.put_item_accepts. rewrite Hid.
  apply bool_decide_eq_true. congruence.
Defined.


(** The item the two invocations leave under [t1]. *)
Example merge_example :
  Merger.items
    (foldl (λ table batch, (sample_merger batch table).1) Sample.empty_table
       [[Sample.delivered (Sample.json_dumps Sample.requested)];
        [Sample.delivered (Sample.json_dumps Sample.completed)]]) !! "t1"
  = Some {[ "id" := "t1";
            "trip_id" := "t1";
            "pickup_datetime" := "2025-04-22T08:30:00";
            "fare_amount" := "20.0";
            "estimated_fare_amount" := "21.5" ]}.
Proof. vm_compute. reflexivity. Qed.

(** C6 on a record without a [trip_id] between two records of [t1]. *)
Lemma record_without_trip_id_is_skipped_witness :
  let r1 := Sample.delivered (Sample.json_dumps Sample.requested) in
  let r2 := Sample.delivered (Sample.json_dumps Sample.completed) in
  let bad := Sample.delivered (Sample.json_dumps Sample.anonymous) in
  (∀ table0, Merger.process_record Sample.b64decode_utf8 Sample.json_loads
               Sample.get_item_accepts Sample.put_item_accepts
               table0 bad = table0) ∧
  sample_merger ([r1] ++ bad :: [r2]) Sample.empty_table
  = sample_merger ([r1] ++ [r2]) Sample.empty_table ∧
  (sample_merger ([r1] ++ bad :: [r2]) Sample.empty_table).2
  = {[ "status" := "ok" ]}.
Proof.
  apply (record_without_trip_id_is_skipped
           Sample.b64decode_utf8 Sample.json_loads
           Sample.get_item_accepts Sample.put_item_accepts).
  eexists _, _. split_and!; vm_compute; reflexivity.
Defined.

(** C9 on a table that holds one trip, and on the completion of [t1],
    which carries an [id] of its own. *)
Lemma id_is_present_and_immutable_witness :
  let records :=
    (Sample.delivered ∘ Sample.json_dumps)
      <$> [Sample.requested; Sample.anonymous; Sample.completed] in
  let record := Sample.delivered (Sample.json_dumps Sample.completed) in
  let process_record :=
    Merger.process_record Sample.b64decode_utf8 Sample.json_loads
      Sample.get_item_accepts Sample.put_item_accepts in
  (Merger.keyed_by_id (sample_merger records Sample.one_trip_table).1 ∧
   ∀ k it, Merger.items Sample.one_trip_table !! k = Some it →
     ∃ it', Merger.items (sample_merger records Sample.one_trip_table).1 !! k
            = Some it' ∧
            it' !! "id" = it !! "id") ∧
  ∃ merged_item,
    Merger.put_calls (process_record Sample.one_trip_table record)
    = Merger.put_calls Sample.one_trip_table ++ [merged_item] ∧
    Merger.items (process_record Sample.one_trip_table record) !! "t1"
    = Some merged_item ∧
    merged_item !! "id" = Some "t1" ∧
    ∀ f, f ≠ "id" → is_Some (Sample.completed !! f) →
         merged_item !! f = Sample.completed !! f.
Proof.
  intros records record process_record.
  assert (Merger.keyed_by_id Sample.one_trip_table) as Hkeyed.
  { intros k it Hit. unfold Sample.one_trip_table, Merger.items in Hit.
    apply lookup_singleton_Some in Hit as [<- <-]. reflexivity. }
  pose proof (id_is_present_and_immutable
              Sample.b64decode_utf8 Sample.json_loads
              Sample.get_item_accepts Sample.put_item_accepts
              records Sample.one_trip_table Hkeyed) as Hthm.
  destruct Hthm as (Hinv & Hkeeps & _ & Hwrites).
  split; [exact (conj Hinv Hkeeps)|].
  refine (Hwrites record Sample.completed "t1" Sample.one_trip_table
            _ _ _ _).
  - exists (Sample.json_dumps Sample.completed).
    split; vm_compute; reflexivity.
  - reflexivity.
  - reflexivity.
  - intros it. by apply sample_put_item_accepts.
Defined.

(** C2 on the request of the trip [t1]. *)
Lemma ingested_row_round_trips_witness :
  let request :=
    Ingestor.request_of_row Sample.json_dumps "trips" Sample.requested in
  let stored : gmap string string := <["id" := "t1"]> (id <$> Sample.requested) in
  Ingestor.PartitionKey request = "t1" ∧
  Merger.items
    (sample_merger [Sample.delivered (Ingestor.Data request)]
       Sample.empty_table).1 !! "t1"
  = Some stored ∧
  Merger.put_calls
    (sample_merger [Sample.delivered (Ingestor.Data request)]
       Sample.empty_table).1
  = Merger.put_calls Sample.empty_table ++ [stored].
Proof.
  apply (ingested_row_round_trips
           Sample.b64decode_utf8 Sample.json_loads
           Sample.get_item_accepts Sample.put_item_accepts
           Sample.json_dumps Sample.b64encode id
           "trips" Sample.requested "t1" Sample.empty_table).
  - reflexivity.
  - vm_compute. reflexivity.
  - vm_compute. reflexivity.
  - reflexivity.
  - vm_compute. reflexivity.
  - reflexivity.
Defined.

(** * Properties of the Ingestor *)

Section ingestor_properties.
Variable DictReader : string → list (gmap string string).
Variable json_dumps : gmap string string → string.
Variable s3_objects : gmap (string * string) string.
Variable kinesis_accepts : Ingestor.put_record_request → bool.

#[local] Abbreviation row := (gmap string string).
#[local] Abbreviation put_record := (Ingestor.put_record kinesis_accepts).
#[local] Abbreviation request_of_row := (Ingestor.request_of_row json_dumps).
#[local] Abbreviation send_file :=
  (Ingestor.send_file DictReader json_dumps s3_objects kinesis_accepts).
#[local] Abbreviation lambda_handler :=
  (Ingestor.lambda_handler DictReader json_dumps s3_objects kinesis_accepts).
#[local] Abbreviation rows_of := (Ingestor.rows_of DictReader s3_objects).
#[local] Abbreviation after_calls := Ingestor.after_calls.
#[local] Abbreviation attempted_rows :=
  (Ingestor.attempted_rows json_dumps kinesis_accepts).
#[local] Abbreviation taken_rows :=
  (Ingestor.taken_rows json_dumps kinesis_accepts).

Lemma after_calls_nil w : after_calls w [] [] [] = w.
Proof. destruct w. unfold Ingestor.after_calls. simpl. by rewrite !app_nil_r. Qed.

Lemma after_calls_after_calls w g1 p1 t1 g2 p2 t2 :
  after_calls (after_calls w g1 p1 t1) g2 p2 t2
  = after_calls w (g1 ++ g2) (p1 ++ p2) (t1 ++ t2).
Proof. unfold Ingestor.after_calls. simpl. by rewrite !(assoc_L (++)). Qed.

(** The row loop up to the first request the stream refuses. *)
Lemma send_rows_until_refused stream_name (before after : list row) r w :
  Forall (λ r, kinesis_accepts (request_of_row stream_name r) = true) before →
  kinesis_accepts (request_of_row stream_name r) = false →
  Ingestor.for_each (λ r, put_record (request_of_row stream_name r))
    (before ++ r :: after) w
  = (after_calls w [] (request_of_row stream_name <$> before ++ [r])
                      (request_of_row stream_name <$> before), None).
Proof.
  intros Hall Hr. revert w. induction Hall as [|r0 rows Hr0 Hall IH]; intros w.
  { simpl. unfold Ingestor.io_bind, Ingestor.put_record. rewrite Hr.
    f_equal. unfold Ingestor.after_calls. simpl. by rewrite !app_nil_r. }
  simpl. unfold Ingestor.io_bind, Ingestor.put_record at 1. rewrite Hr0.
  rewrite IH. f_equal.
  unfold Ingestor.after_calls. simpl. by rewrite !app_nil_r, <-!(assoc_L (++)).
Qed.

(** The loop over the notifications never raises. *)
Lemma for_each_try_except {A} (body : A → Ingestor.io unit) xs w :
  Ingestor.for_each (λ x, Ingestor.try_except (body x)) xs w
  = (foldl (λ w x, (body x w).1) w xs, Some tt).
Proof.
  revert w. induction xs as [|x xs IH]; intros w; [done|].
  simpl. unfold Ingestor.io_bind, Ingestor.try_except at 1. by rewrite IH.
Qed.

Lemma handler_configured c name Records w :
  lambda_handler (Some (String c name)) Records w
  = (foldl (λ w record, (send_file (String c name) record w).1) w Records,
     Some Ingestor.done).
Proof.
  unfold Ingestor.lambda_handler, Ingestor.io_bind.
  by rewrite for_each_try_except.
Qed.

(** The row loop, whether or not the stream refuses a request. *)
Lemma send_rows_effects stream_name (rows : list row) w :
  (Ingestor.for_each (λ r, put_record (request_of_row stream_name r)) rows w).1
  = after_calls w [] (request_of_row stream_name <$> attempted_rows stream_name rows)
                     (request_of_row stream_name <$> taken_rows stream_name rows).
Proof.
  revert w. induction rows as [|r rows IH]; intros w.
  { simpl. by rewrite after_calls_nil. }
  simpl. unfold Ingestor.io_bind, Ingestor.put_record at 1.
  destruct (kinesis_accepts (request_of_row stream_name r)) eqn:Hr.
  - rewrite IH. unfold Ingestor.after_calls. simpl.
    by rewrite !app_nil_r, <-!(assoc_L (++)).
  - unfold Ingestor.after_calls. simpl. by rewrite !app_nil_r.
Qed.

Lemma send_file_effects stream_name record w :
  (send_file stream_name record w).1
  = after_calls w
      [(Ingestor.bucket_name record, Ingestor.object_key record)]
      (request_of_row stream_name
         <$> attempted_rows stream_name (rows_of record))
      (request_of_row stream_name
         <$> taken_rows stream_name (rows_of record)).
Proof.
  unfold Ingestor.rows_of, Ingestor.send_file, Ingestor.io_bind.
  unfold Ingestor.get_object at 1.
  destruct (s3_objects !! _) as [content|]; simpl.
  - rewrite send_rows_effects. unfold Ingestor.after_calls. simpl.
    by rewrite !app_nil_r.
  - unfold Ingestor.after_calls. simpl. by rewrite !app_nil_r.
Qed.

(** The file loop. *)
Lemma send_files_effects stream_name Records w :
  foldl (λ w record, (send_file stream_name record w).1) w Records
  = after_calls w
      ((λ record, (Ingestor.bucket_name record, Ingestor.object_key record))
         <$> Records)
      (request_of_row stream_name
         <$> (Records ≫= λ record,
                attempted_rows stream_name (rows_of record)))
      (request_of_row stream_name
         <$> (Records ≫= λ record, taken_rows stream_name (rows_of record))).
Proof.
  revert w. induction Records as [|record Records IH]; intros w.
  { simpl. by rewrite after_calls_nil. }
  cbn [foldl]. rewrite IH, send_file_effects, after_calls_after_calls.
  by rewrite !bind_cons, !fmap_app.
Qed.

(** When the stream takes every request of a file, the row loop reaches
    every row and the stream takes every row. *)
Lemma attempted_rows_all_taken stream_name (rows : list row) :
  Forall (λ r, kinesis_accepts (request_of_row stream_name r) = true) rows →
  attempted_rows stream_name rows = rows ∧ taken_rows stream_name rows = rows.
Proof.
  induction 1 as [|r rows Hr Hall [IH1 IH2]]; [done|].
  simpl. by rewrite Hr, IH1, IH2.
Qed.

(** *** The claims *)

(** C7.  Without a stream name (the variable unset or empty) the handler
    returns the error dict and has called neither [get_object] nor
    [put_record].  With one it returns [{"status": "done"}] after the
    whole batch: every notification has gone through the [try] block, in
    order, and its file has been asked for. *)
Theorem missing_stream_name_is_reported stream_name Records w :
  (stream_name = None ∨ stream_name = Some "" →
   lambda_handler stream_name Records w
   = (w, Some {[ "status" := "error";
                 "message" := "Stream name not configured" ]})) ∧
  (∀ name, stream_name = Some name → name ≠ "" →
   lambda_handler stream_name Records w
   = (foldl (λ w record, (send_file name record w).1) w Records,
      Some {[ "status" := "done" ]}) ∧
   Ingestor.get_object_calls (lambda_handler stream_name Records w).1
   = Ingestor.get_object_calls w
       ++ ((λ record,
              (Ingestor.bucket_name record, Ingestor.object_key record))
             <$> Records)).
Proof.
  split.
  - by intros [-> | ->].
  - intros name -> Hname. destruct name as [|c name]; [done|].
    rewrite handler_configured. split; [done|].
    simpl fst. by rewrite send_files_effects.
Qed.

(** C8, as the code has it.  From each file it fetched the handler issues
    one [put_record] call for every row up to and including the first one
    the stream refuses, in order, and none for the rows after that one;
    the stream grows by the records of the rows before that one.  The
    payload of each record is the serialised row, its partition key the
    row's [trip_id], or ["unknown"] for a row without one.  When the
    stream refuses no request, that is one record for every row. *)
Theorem one_log_record_per_row_until_refusal stream_name Records w :
  stream_name ≠ "" →
  let record_of :=
    λ row : row,
      {| Ingestor.StreamName := stream_name;
         Ingestor.Data := json_dumps row;
         Ingestor.PartitionKey := default "unknown" (row !! "trip_id") |} in
  let w' := (lambda_handler (Some stream_name) Records w).1 in
  Ingestor.put_record_calls w'
  = Ingestor.put_record_calls w
      ++ (record_of <$> (Records ≫= λ record,
                           attempted_rows stream_name (rows_of record))) ∧
  Ingestor.stream w'
  = Ingestor.stream w
      ++ (record_of <$> (Records ≫= λ record,
                           taken_rows stream_name (rows_of record))) ∧
  (Forall (λ record,
             Forall (λ r, kinesis_accepts (record_of r) = true)
                    (rows_of record)) Records →
   Ingestor.put_record_calls w'
   = Ingestor.put_record_calls w ++ (record_of <$> (Records ≫= rows_of)) ∧
   Ingestor.stream w'
   = Ingestor.stream w ++ (record_of <$> (Records ≫= rows_of))).
Proof.
  intros Hname. destruct stream_name as [|c name]; [done|].
  cbv zeta. rewrite handler_configured. simpl fst.
  rewrite send_files_effects. split_and!; [done|done|].
  intros Hall.
  assert (Records ≫= (λ record,
                        attempted_rows (String c name) (rows_of record))
          = Records ≫= rows_of ∧
          Records ≫= (λ record, taken_rows (String c name) (rows_of record))
          = Records ≫= rows_of) as [-> ->]; [|done].
  induction Hall as [|record Records Hrec Hall [IH1 IH2]]; [done|].
  rewrite !bind_cons, IH1, IH2.
  by destruct (attempted_rows_all_taken _ _ Hrec) as [-> ->].
Qed.

(** C3, as the code has it.  When the stream refuses the request of a row,
    the rows of the file before it stay appended, the rows after it are
    not sent, and the handler goes on with the next file. *)
Theorem append_failure_skips_rest_of_file
    stream_name record Records content before row after w :
  stream_name ≠ "" →
  s3_objects !! (Ingestor.bucket_name record, Ingestor.object_key record)
  = Some content →
  DictReader content = before ++ row :: after →
  Forall (λ r, kinesis_accepts (request_of_row stream_name r) = true) before →
  kinesis_accepts (request_of_row stream_name row) = false →
  lambda_handler (Some stream_name) (record :: Records) w
  = lambda_handler (Some stream_name) Records
      (after_calls w
         [(Ingestor.bucket_name record, Ingestor.object_key record)]
         (request_of_row stream_name <$> before ++ [row])
         (request_of_row stream_name <$> before)).
Proof.
  intros Hname Hget Hrows Hbefore Hrow.
  destruct stream_name as [|c name]; [done|].
  rewrite !handler_configured. simpl. f_equal. f_equal.
  unfold Ingestor.send_file, Ingestor.io_bind.
  unfold Ingestor.get_object at 1. rewrite Hget, Hrows.
  rewrite send_rows_until_refused by done. simpl.
  unfold Ingestor.after_calls. simpl. by rewrite !app_nil_r.
Qed.

End ingestor_properties.


(** ** The Ingestor on the example data *)

#[local] Abbreviation sample_ingestor :=
  (Ingestor.lambda_handler Sample.DictReader Sample.json_dumps
     Sample.s3_objects Sample.kinesis_accepts).

#[local] Abbreviation sample_request :=
  (Ingestor.request_of_row Sample.json_dumps "trips").

(** C7 with the variable unset, and with the stream named [trips] on a
    batch of two notifications. *)
Lemma missing_stream_name_is_reported_witness :
  let Records := [Sample.broken_csv; Sample.trips_csv] in
  sample_ingestor None Records Sample.nothing_done
  = (Sample.nothing_done,
     Some {[ "status" := "error";
             "message" := "Stream name not configured" ]}) ∧
  sample_ingestor (Some "trips") Records Sample.nothing_done
  = (foldl (λ w record,
              (Ingestor.send_file Sample.DictReader Sample.json_dumps
                 Sample.s3_objects Sample.kinesis_accepts "trips" record w).1)
           Sample.nothing_done Records,
     Some {[ "status" := "done" ]}) ∧
  Ingestor.get_object_calls
    (sample_ingestor (Some "trips") Records Sample.nothing_done).1
  = Ingestor.get_object_calls Sample.nothing_done
      ++ [("rides", "broken.csv"); ("rides", "trips.csv")].
Proof.
  intros Records. split.
  - apply (missing_stream_name_is_reported
             Sample.DictReader Sample.json_dumps Sample.s3_objects
             Sample.kinesis_accepts None). by left.
  - by apply (proj2 (missing_stream_name_is_reported
                       Sample.DictReader Sample.json_dumps Sample.s3_objects
                       Sample.kinesis_accepts (Some "trips") Records
                       Sample.nothing_done) "trips").
Defined.

(** C8, as the code has it, on the broken file followed by the file of
    two trips: one refused call for the first row of the broken file, none
    for its second row, and the two records of the other file. *)
Lemma one_log_record_per_row_until_refusal_witness :
  let Records := [Sample.broken_csv; Sample.trips_csv] in
  let record_of :=
    λ row : gmap string string,
      {| Ingestor.StreamName := "trips";
         Ingestor.Data := Sample.json_dumps row;
         Ingestor.PartitionKey := default "unknown" (row !! "trip_id") |} in
  let rows_of := Ingestor.rows_of Sample.DictReader Sample.s3_objects in
  let w' := (sample_ingestor (Some "trips") Records Sample.nothing_done).1 in
  Ingestor.put_record_calls w'
  = Ingestor.put_record_calls Sample.nothing_done
      ++ (record_of
            <$> (Records ≫= λ record,
                   Ingestor.attempted_rows Sample.json_dumps
                     Sample.kinesis_accepts "trips" (rows_of record))) ∧
  Ingestor.stream w'
  = Ingestor.stream Sample.nothing_done
      ++ (record_of
            <$> (Records ≫= λ record,
                   Ingestor.taken_rows Sample.json_dumps
                     Sample.kinesis_accepts "trips" (rows_of record))) ∧
  (Forall (λ record,
             Forall (λ r, Sample.kinesis_accepts (record_of r) = true)
                    (rows_of record)) Records →
   Ingestor.put_record_calls w'
   = Ingestor.put_record_calls Sample.nothing_done
       ++ (record_of <$> (Records ≫= rows_of)) ∧
   Ingestor.stream w'
   = Ingestor.stream Sample.nothing_done
       ++ (record_of <$> (Records ≫= rows_of))).
Proof.
  apply (one_log_record_per_row_until_refusal
           Sample.DictReader Sample.json_dumps Sample.s3_objects
           Sample.kinesis_accepts "trips").
  done.
Defined.

(** What the handler sends from the two files. *)
Example ingestor_example :
  let w' :=
    (sample_ingestor (Some "trips") [Sample.broken_csv; Sample.trips_csv]
       Sample.nothing_done).1 in
  Ingestor.PartitionKey <$> Ingestor.put_record_calls w' = [""; "t1"; "t2"] ∧
  Ingestor.PartitionKey <$> Ingestor.stream w' = ["t1"; "t2"].
Proof. split; vm_compute; reflexivity. Qed.

(** C8, as the spec has it, fails on the broken file: it has two rows, and
    the handler issues one call. *)
Lemma one_append_per_parsed_row_fails : ¬ one_append_per_parsed_row.
Proof.
  intros Hclaim.
  specialize (Hclaim Sample.DictReader Sample.json_dumps Sample.s3_objects
                Sample.kinesis_accepts "trips" [Sample.broken_csv]
                Sample.nothing_done).
  apply (f_equal length) in Hclaim; [|done].
  vm_compute in Hclaim. discriminate.
Qed.

(** C3, as the code has it, on the file whose first row has an empty
    [trip_id]: the second row is never sent. *)
Lemma append_failure_skips_rest_of_file_witness :
  let unnamed : gmap string string :=
    {[ "trip_id" := ""; "fare_amount" := "10.0" ]} in
  sample_ingestor (Some "trips") [Sample.broken_csv; Sample.trips_csv]
    Sample.nothing_done
  = sample_ingestor (Some "trips") [Sample.trips_csv]
      (Ingestor.after_calls Sample.nothing_done
         [("rides", "broken.csv")]
         (sample_request <$> [] ++ [unnamed])
         (sample_request <$> [])).
Proof.
  apply (append_failure_skips_rest_of_file
           Sample.DictReader Sample.json_dumps Sample.s3_objects
           Sample.kinesis_accepts "trips" Sample.broken_csv [Sample.trips_csv]
           (Sample.file ["trip_id,fare_amount"; ",10.0"; "t2,25.0"])
           [] _ [{[ "trip_id" := "t2"; "fare_amount" := "25.0" ]}]).
  - done.
  - vm_compute. reflexivity.
  - vm_compute. reflexivity.
  - constructor.
  - vm_compute. reflexivity.
Defined.

(** C3, as the spec has it, fails on that file: the stream would take the
    record of the second row, and the handler never sends it. *)
Lemma row_granular_tolerance_fails : ¬ row_granular_tolerance.
Proof.
  intros Hclaim.
  specialize (Hclaim Sample.DictReader Sample.json_dumps Sample.s3_objects
                Sample.kinesis_accepts "trips" Sample.broken_csv
                (Sample.file ["trip_id,fare_amount"; ",10.0"; "t2,25.0"])
                {[ "trip_id" := "t2"; "fare_amount" := "25.0" ]}
                Sample.nothing_done).
  assert (Ingestor.stream
            (sample_ingestor (Some "trips") [Sample.broken_csv]
               Sample.nothing_done).1 = []) as Hstream
    by (vm_compute; reflexivity).
  rewrite Hstream in Hclaim.
  eapply not_elem_of_nil, Hclaim.
  - done.
  - vm_compute. reflexivity.
  - compute_done.
  - vm_compute. reflexivity.
Qed.

(** * Properties of the Aggregator *)

(** ** The chronological order *)

Lemma lex_leb_total l1 l2 :
  Aggregator.lex_leb l1 l2 = true ∨ Aggregator.lex_leb l2 l1 = true.
Proof.
  revert l2. induction l1 as [|x l1 IH]; intros [|y l2]; simpl; auto.
  destruct (Nat.ltb_spec x y), (Nat.ltb_spec y x); auto; lia.
Qed.

Lemma lex_leb_trans l1 l2 l3 :
  Aggregator.lex_leb l1 l2 = true → Aggregator.lex_leb l2 l3 = true →
  Aggregator.lex_leb l1 l3 = true.
Proof.
  revert l2 l3.
  induction l1 as [|x l1 IH]; intros [|y l2] [|z l3]; simpl; try done.
  destruct (Nat.ltb_spec x y), (Nat.ltb_spec y x),
           (Nat.ltb_spec y z), (Nat.ltb_spec z y),
           (Nat.ltb_spec x z), (Nat.ltb_spec z x);
    try done; try lia; eauto.
Qed.

Lemma lex_leb_antisym l1 l2 :
  length l1 = length l2 →
  Aggregator.lex_leb l1 l2 = true → Aggregator.lex_leb l2 l1 = true →
  l1 = l2.
Proof.
  revert l2. induction l1 as [|x l1 IH]; intros [|y l2]; simpl; try done.
  intros [= Hlen].
  destruct (Nat.ltb_spec x y), (Nat.ltb_spec y x); try done; try lia.
  intros H1 H2. f_equal; [lia|]. by apply IH.
Qed.

#[local] Instance ts_le_total : Total Aggregator.ts_le.
Proof. intros a b. apply lex_leb_total. Qed.

#[local] Instance ts_le_trans : Transitive Aggregator.ts_le.
Proof. intros a b c. apply lex_leb_trans. Qed.

Lemma ts_le_antisym a b :
  Aggregator.ts_le a b → Aggregator.ts_le b a → a = b.
Proof.
  intros Hab Hba.
  assert (Aggregator.fields a = Aggregator.fields b) as Heq
    by by apply lex_leb_antisym.
  destruct a, b. by injection Heq as -> -> -> -> -> -> ->.
Qed.

(** ** The bucket after a series of writes *)

Lemma put_objects_app bucket ws1 ws2 :
  Aggregator.put_objects bucket (ws1 ++ ws2)
  = Aggregator.put_objects (Aggregator.put_objects bucket ws1) ws2.
Proof. apply foldl_app. Qed.

(** An object is what the last write to its key left there. *)
Lemma put_objects_lookup bucket ws k :
  Aggregator.put_objects bucket ws !! k
  = match last (filter (λ w, Aggregator.Key w = k) ws) with
    | Some w => Some (Aggregator.Body w)
    | None => bucket !! k
    end.
Proof.
  induction ws as [|w ws IH] using rev_ind; [done|].
  rewrite put_objects_app, filter_app. simpl.
  rewrite lookup_insert. rewrite filter_cons, filter_nil.
  case_decide as Hk.
  - by rewrite last_snoc.
  - by rewrite app_nil_r.
Qed.

(** ** The last element of a sorted list that has a property *)

Lemma filter_fmap_comm {A B} (f : A → B) (P : B → Prop)
    `{∀ y, Decision (P y)} (l : list A) :
  filter P (f <$> l) = f <$> filter (λ x, P (f x)) l.
Proof.
  induction l as [|x l IH]; [done|].
  rewrite fmap_cons, !filter_cons.
  destruct (decide (P (f x))); [rewrite fmap_cons; f_equal|]; exact IH.
Qed.

Lemma last_filter_is_Some {A} (P : A → Prop) `{∀ x, Decision (P x)}
    (l : list A) x :
  x ∈ l → P x → is_Some (last (filter P l)).
Proof.
  intros Hx HP. apply last_is_Some. intros Hnil.
  assert (x ∈ filter P l) as Hin by by apply list_elem_of_filter.
  rewrite Hnil in Hin. by apply not_elem_of_nil in Hin.
Qed.

Lemma last_filter_sorted {A} (R : relation A) `{!Reflexive R}
    (P : A → Prop) `{∀ x, Decision (P x)} (l : list A) x :
  StronglySorted R l →
  last (filter P l) = Some x →
  ∀ y, y ∈ l → P y → R y x.
Proof.
  intros Hsorted. revert x.
  induction Hsorted as [|a l Hsorted IH Ha]; intros x Hlast y Hy HPy.
  { by apply not_elem_of_nil in Hy. }
  assert (x ∈ a :: l ∧ P x) as [Hx HPx].
  { apply last_Some_elem_of, list_elem_of_filter in Hlast. tauto. }
  destruct (filter P l) as [|b k] eqn:Hfilter.
  - (* [a] is the only element with the property *)
    assert (∀ z, z ∈ a :: l → P z → z = a) as Honly.
    { intros z [->|Hz]%elem_of_cons HPz; [done|].
      assert (z ∈ filter P l) as Hin by by apply list_elem_of_filter.
      rewrite Hfilter in Hin. by apply not_elem_of_nil in Hin. }
    rewrite (Honly x Hx HPx), (Honly y Hy HPy). done.
  - assert (last (filter P l) = Some x) as Hlast'.
    { rewrite filter_cons in Hlast. rewrite Hfilter in Hlast |- *.
      destruct (decide (P a)); [by rewrite last_cons_cons in Hlast|done]. }
    apply elem_of_cons in Hy as [->|Hy].
    2: { apply IH; [by rewrite <-Hfilter|done|done]. }
    apply last_Some_elem_of, list_elem_of_filter in Hlast' as [_ Hxl].
    by apply (proj1 (Forall_forall _ _) Ha).
Qed.

#[local] Instance ts_le_refl : Reflexive Aggregator.ts_le.
Proof. intros a. by destruct (total Aggregator.ts_le a a). Qed.

Section aggregator_properties.
Context {value num : Type}.
Variable num_zero : num.
Variable num_add : num → num → num.
Variable num_div : num → nat → num.
Variable num_max : num → num → num.
Variable num_min : num → num → num.
Variable to_numeric : value → option num.
Variable to_datetime : value → option (option Aggregator.Timestamp).
Variable to_json : @Aggregator.kpi num → string.

#[local] Abbreviation item := (gmap string value).
#[local] Abbreviation Timestamp := Aggregator.Timestamp.
#[local] Abbreviation scan_all_items := (@Aggregator.scan_all_items value).
#[local] Abbreviation agg :=
  (Aggregator.agg num_zero num_add num_div num_max num_min).
#[local] Abbreviation compute_kpis :=
  (Aggregator.compute_kpis num_zero num_add num_div num_max num_min
     to_numeric to_datetime).
#[local] Abbreviation upload := (Aggregator.upload to_json).
#[local] Abbreviation lambda_handler :=
  (Aggregator.lambda_handler num_zero num_add num_div num_max num_min
     to_numeric to_datetime to_json).
#[local] Abbreviation timestamp_of := (Aggregator.timestamp_of to_datetime).
#[local] Abbreviation timestamp_parses :=
  (Aggregator.timestamp_parses to_datetime).
#[local] Abbreviation fare_of := (Aggregator.fare_of to_numeric).
#[local] Abbreviation group_of := (Aggregator.group_of to_datetime).
#[local] Abbreviation kpi_of :=
  (Aggregator.kpi_of num_zero num_add num_div num_max num_min
     to_numeric to_datetime).
#[local] Abbreviation timestamps := (Aggregator.timestamps to_datetime).
#[local] Abbreviation written := (Aggregator.written to_json).
#[local] Abbreviation object_of :=
  (Aggregator.object_of num_zero num_add num_div num_max num_min to_json).

Lemma scan_all_items_filtered pages :
  Forall Aggregator.filter_expression (scan_all_items pages).
Proof.
  unfold Aggregator.scan_all_items.
  assert (∀ acc : list item,
            Forall Aggregator.filter_expression acc →
            Forall Aggregator.filter_expression
              (foldl (λ items page,
                        items ++ filter Aggregator.filter_expression page)
                     acc pages)) as Hgen; [|by apply Hgen].
  induction pages as [|page pages IH]; intros acc Hacc; [done|].
  simpl. apply IH. apply Forall_app. split; [done|].
  apply Forall_forall. intros it Hit.
  by apply list_elem_of_filter in Hit as [? _].
Qed.

Lemma column_Some name (items : list item) :
  Exists (λ it : item, is_Some (it !! name)) items →
  Aggregator.column name items = Some ((λ it : item, it !! name) <$> items).
Proof. intros Hex. unfold Aggregator.column. by rewrite decide_True. Qed.

Lemma column_None name (items : list item) :
  ¬ Exists (λ it : item, is_Some (it !! name)) items →
  Aggregator.column name items = None.
Proof. intros Hex. unfold Aggregator.column. by rewrite decide_False. Qed.

Lemma to_datetime_column (items : list item) :
  Forall timestamp_parses items →
  mapM (λ cell, from_option to_datetime (Some None) cell)
       ((λ it : item, it !! "pickup_datetime") <$> items)
  = Some (timestamp_of <$> items).
Proof.
  intros Hall. apply mapM_Some_2. apply Forall2_fmap.
  apply Forall_Forall2_diag. eapply Forall_impl; [done|].
  intros it. unfold Aggregator.timestamp_parses, Aggregator.timestamp_of.
  destruct (it !! "pickup_datetime") as [v|]; simpl; [|done].
  by intros [ts ->].
Qed.

Lemma zip_fmap_same {A B C} (f : A → B) (g : A → C) (l : list A) :
  zip (f <$> l) (g <$> l) = (λ x, (f x, g x)) <$> l.
Proof. induction l as [|x l IH]; [done|]. csimpl. by f_equal. Qed.

Lemma groupby_rows (items : list item) :
  Aggregator.groupby ((λ it, (timestamp_of it, fare_of it)) <$> items)
  = (λ ts, (ts, fare_of <$> group_of ts items)) <$> timestamps items.
Proof.
  unfold Aggregator.groupby, timestamps, group_of.
  assert (omap fst ((λ it, (timestamp_of it, fare_of it)) <$> items)
          = omap timestamp_of items) as ->.
  { induction items as [|it items IH]; [done|]. csimpl.
    by rewrite IH. }
  apply list_fmap_ext. intros _ ts _. f_equal.
  induction items as [|it items IH]; [done|].
  rewrite fmap_cons, !filter_cons. simpl.
  destruct (decide (timestamp_of it = Some ts));
    [rewrite !fmap_cons; f_equal|]; exact IH.
Qed.

Lemma compute_kpis_parsed (items : list item) :
  items ≠ [] →
  Forall Aggregator.filter_expression items →
  Exists (λ it : item, is_Some (it !! "pickup_datetime")) items →
  Forall timestamp_parses items →
  compute_kpis items = Some ((λ ts, kpi_of ts items) <$> timestamps items).
Proof.
  intros Hne Hfilter Hcol Hparses. unfold Aggregator.compute_kpis.
  rewrite (column_Some "fare_amount").
  2: { destruct Hfilter as [|it items [Hfare _] _]; [done|]. by left. }
  simpl. rewrite (column_Some "pickup_datetime") by done. simpl.
  rewrite to_datetime_column by done. simpl. f_equal.
  rewrite <-list_fmap_compose.
  rewrite (zip_fmap_same timestamp_of). 
  change (λ x : item, (timestamp_of x, ((λ cell, cell ≫= to_numeric) ∘ (λ it : item, it !! "fare_amount")) x))
    with (λ it : item, (timestamp_of it, fare_of it)).
  rewrite groupby_rows. by rewrite <-list_fmap_compose.
Qed.

Lemma upload_all (env : gmap string string) bucket rows :
  env !! "ATHENA_BUCKET_NAME" = Some bucket →
  mapM (upload env) rows = Some (written bucket <$> rows).
Proof.
  intros Henv. apply mapM_Some_2, Forall2_fmap_r, Forall_Forall2_diag.
  apply Forall_forall. intros row _. unfold Aggregator.upload.
  by rewrite Henv.
Qed.

(** What the handler writes when nothing raises. *)
Lemma handler_writes (env : gmap string string) pages bucket :
  let items := scan_all_items pages in
  is_Some (env !! "DYNAMODB_TABLE_NAME") →
  env !! "ATHENA_BUCKET_NAME" = Some bucket →
  Exists (λ it : item, is_Some (it !! "pickup_datetime")) items →
  Forall timestamp_parses items →
  lambda_handler env pages
  = Some ((λ ts, written bucket (kpi_of ts items)) <$> timestamps items).
Proof.
  intros items [table Htable] Hbucket Hcol Hparses.
  unfold Aggregator.lambda_handler. rewrite Htable. simpl.
  fold items. destruct items as [|it items'] eqn:Hitems.
  { by apply Exists_nil in Hcol. }
  rewrite <-Hitems in *.
  rewrite compute_kpis_parsed; [|by rewrite Hitems| |done|done].
  2: { unfold items. apply scan_all_items_filtered. }
  simpl. rewrite (upload_all _ bucket) by done.
  by rewrite <-list_fmap_compose.
Qed.

Lemma timestamps_NoDup items : NoDup (timestamps items).
Proof.
  unfold Aggregator.timestamps. rewrite merge_sort_Permutation.
  apply NoDup_remove_dups.
Qed.

Lemma elem_of_timestamps items ts :
  ts ∈ timestamps items ↔ ∃ it, it ∈ items ∧ timestamp_of it = Some ts.
Proof.
  unfold Aggregator.timestamps. rewrite merge_sort_Permutation.
  rewrite elem_of_remove_dups. apply list_elem_of_omap.
Qed.

Lemma timestamps_sorted items :
  StronglySorted Aggregator.ts_le (timestamps items).
Proof. apply StronglySorted_merge_sort; apply _. Qed.

Lemma omap_id_fmap {A B} (f : A → option B) (l : list A) :
  omap id (f <$> l) = omap f l.
Proof.
  induction l as [|x l IH]; [done|]. csimpl.
  destruct (f x); by rewrite IH.
Qed.

Lemma agg_count_parsed (group : list item) :
  Aggregator.agg_count (fare_of <$> group)
  = length (filter (λ it, is_Some (fare_of it)) group).
Proof.
  unfold Aggregator.agg_count. rewrite omap_id_fmap.
  induction group as [|it group IH]; [done|].
  rewrite filter_cons. csimpl.
  destruct (fare_of it) as [x|] eqn:Hx.
  - rewrite decide_True by done. simpl. by rewrite IH.
  - rewrite decide_False by (by intros [? ?]). done.
Qed.

(** The handler raises when [pd.to_datetime] raises on one of the items. *)
Lemma handler_raises (env : gmap string string) pages (it : item) v :
  it ∈ scan_all_items pages →
  it !! "pickup_datetime" = Some v →
  to_datetime v = None →
  lambda_handler env pages = None.
Proof.
  intros Hit Hv Hraise. unfold Aggregator.lambda_handler.
  destruct (env !! "DYNAMODB_TABLE_NAME"); [simpl|done].
  destruct (scan_all_items pages) as [|it0 items] eqn:Hitems.
  { by apply not_elem_of_nil in Hit. }
  rewrite <-Hitems in *. clear Hitems.
  assert (compute_kpis (scan_all_items pages) = None) as ->; [|done].
  unfold Aggregator.compute_kpis.
  destruct (Aggregator.column "fare_amount" _); [simpl|done].
  rewrite (column_Some "pickup_datetime").
  2: { apply Exists_exists. exists it. by rewrite Hv. }
  simpl.
  assert (mapM (λ cell, from_option to_datetime (Some None) cell)
            ((λ it : item, it !! "pickup_datetime")
               <$> scan_all_items pages) = None) as ->; [|done].
  apply mapM_None_2, Exists_exists.
  exists (Some v). split; [|done].
  apply list_elem_of_fmap. by exists it.
Qed.



(** *** The claims *)


Lemma timestamp_of_parses (it : item) :
  is_Some (timestamp_of it) →
  is_Some (it !! "pickup_datetime") ∧ timestamp_parses it.
Proof.
  unfold Aggregator.timestamp_of, Aggregator.timestamp_parses.
  intros [ts Hts].
  destruct (it !! "pickup_datetime") as [v|]; [|done]. simpl in *.
  split; [done|]. by destruct (to_datetime v).
Qed.

Lemma written_object_of bucket ts (items : list item) :
  written bucket (kpi_of ts items)
  = object_of bucket ts (omap fare_of (group_of ts items)).
Proof.
  unfold Aggregator.written, Aggregator.kpi_of, object_of, Aggregator.agg. simpl.
  unfold Aggregator.agg_mean, Aggregator.agg_max, Aggregator.agg_min,
    Aggregator.agg_sum, Aggregator.agg_count.
  rewrite omap_id_fmap.
  by destruct (omap fare_of (group_of ts items)).
Qed.

(** C5.  When every scanned item has a timestamp and a numeric fare, the
    handler writes one object per distinct [pickup_datetime] value: to the
    path [kpis/date=<YYYY-MM-DD>/kpi.json] of the timestamp's date, with
    the sum, count, mean, max and min of the fares of the items that have
    exactly this timestamp.  Three items with three distinct timestamps
    give three objects, each with count 1 and every statistic equal to
    the item's fare. *)
Theorem one_object_per_distinct_timestamp
    (env : gmap string string) pages bucket :
  let items := scan_all_items pages in
  is_Some (env !! "DYNAMODB_TABLE_NAME") →
  env !! "ATHENA_BUCKET_NAME" = Some bucket →
  items ≠ [] →
  Forall (λ it, is_Some (timestamp_of it) ∧ is_Some (fare_of it)) items →
  (∃ keys : list Timestamp,
     NoDup keys ∧
     (∀ ts, ts ∈ keys ↔ ∃ it, it ∈ items ∧ timestamp_of it = Some ts) ∧
     lambda_handler env pages
     = Some ((λ ts, object_of bucket ts (omap fare_of (group_of ts items)))
               <$> keys) ∧
     ∀ ts, ts ∈ keys →
           length (omap fare_of (group_of ts items))
           = length (group_of ts items)) ∧
  (∀ it1 it2 it3 t1 t2 t3 x1 x2 x3,
     (∀ x, x ∈ [x1; x2; x3] →
           num_add num_zero x = x ∧ num_div x 1 = x) →
     items = [it1; it2; it3] →
     timestamp_of it1 = Some t1 → fare_of it1 = Some x1 →
     timestamp_of it2 = Some t2 → fare_of it2 = Some x2 →
     timestamp_of it3 = Some t3 → fare_of it3 = Some x3 →
     t1 ≠ t2 → t1 ≠ t3 → t2 ≠ t3 →
     ∃ writes,
       lambda_handler env pages = Some writes ∧
       writes ≡ₚ
         (λ '(ts, x),
            {| Aggregator.Bucket := bucket;
               Aggregator.Key :=
                 "kpis/date=" +:+ Aggregator.strftime_Ymd ts +:+ "/kpi.json";
               Aggregator.Body :=
                 to_json {| Aggregator.pickup_datetime := ts;
                            Aggregator.total_fare := x;
                            Aggregator.count_trips := 1;
                            Aggregator.average_fare := Some x;
                            Aggregator.max_fare := Some x;
                            Aggregator.min_fare := Some x |};
               Aggregator.ContentType := "application/json" |})
           <$> [(t1, x1); (t2, x2); (t3, x3)]).
Proof.
  intros items Htable Hbucket Hne Hall.
  assert (lambda_handler env pages
          = Some ((λ ts, object_of bucket ts
                           (omap fare_of (group_of ts items)))
                    <$> timestamps items)) as Hwrites.
  { rewrite (handler_writes env pages bucket); try done.
    - f_equal. apply list_fmap_ext. intros _ ts _.
      apply written_object_of.
    - fold items. destruct Hall as [|it items' [Hts _] _]; [done|].
      left. by apply timestamp_of_parses.
    - fold items. eapply Forall_impl; [exact Hall|].
      intros it [Hts _]. by apply timestamp_of_parses. }
  split.
  - exists (timestamps items). split_and!.
    + apply timestamps_NoDup.
    + apply elem_of_timestamps.
    + done.
    + intros ts _. unfold Aggregator.group_of.
      assert (Forall (λ it, is_Some (fare_of it))
                     (filter (λ it, timestamp_of it = Some ts) items))
        as Hfares.
      { apply Forall_forall. intros it [_ Hit]%list_elem_of_filter.
        by apply (proj1 (Forall_forall _ _) Hall it Hit). }
      induction Hfares as [|it group [x Hx] _ IH]; [done|].
      csimpl. rewrite Hx. simpl. by rewrite IH.
  - intros it1 it2 it3 t1 t2 t3 x1 x2 x3
      Hlaws Hitems Ht1 Hx1 Ht2 Hx2 Ht3 Hx3 H12 H13 H23.
    destruct (Hlaws x1) as [Hadd1 Hdiv1]; [by left|].
    destruct (Hlaws x2) as [Hadd2 Hdiv2]; [by right; left|].
    destruct (Hlaws x3) as [Hadd3 Hdiv3]; [by right; right; left|].
    eexists. split; [exact Hwrites|].
    assert (timestamps items ≡ₚ [t1; t2; t3]) as ->.
    { apply NoDup_Permutation.
      - apply timestamps_NoDup.
      - repeat (apply NoDup_cons; split); [| |by apply not_elem_of_nil|constructor];
          rewrite ?elem_of_cons, elem_of_nil; intuition congruence.
      - intros ts. rewrite elem_of_timestamps, Hitems. split.
        + intros (it & Hit & Hts).
          rewrite !elem_of_cons in Hit.
          destruct Hit as [-> | [-> | [-> | Hit]]];
            [| | |by apply not_elem_of_nil in Hit];
            rewrite Hts in *; simplify_eq;
            rewrite !elem_of_cons; auto.
        + rewrite !elem_of_cons.
          intros [-> | [-> | [-> | Hin]]];
            [| | |by apply not_elem_of_nil in Hin];
            eexists; (split; [|eassumption]);
            rewrite !elem_of_cons; auto. }
    rewrite Hitems. unfold Aggregator.group_of. simpl.
    rewrite !filter_cons, !filter_nil, Ht1, Ht2, Ht3.
    repeat case_decide; try congruence.
    csimpl. rewrite Hx1, Hx2, Hx3. unfold Aggregator.object_of. simpl.
    by rewrite Hadd1, Hadd2, Hadd3, Hdiv1, Hdiv2, Hdiv3.
Qed.

(** What is known when the handler returns and has a group to write. *)
Lemma handler_returns_inv (env : gmap string string) pages writes
    (it : item) ts :
  let items := scan_all_items pages in
  lambda_handler env pages = Some writes →
  it ∈ items → timestamp_of it = Some ts →
  ∃ bucket,
    is_Some (env !! "DYNAMODB_TABLE_NAME") ∧
    env !! "ATHENA_BUCKET_NAME" = Some bucket ∧
    Exists (λ it : item, is_Some (it !! "pickup_datetime")) items ∧
    Forall timestamp_parses items.
Proof.
  intros items Hret Hit Hts.
  assert (Exists (λ it : item, is_Some (it !! "pickup_datetime")) items)
    as Hcol.
  { apply Exists_exists. exists it. split; [done|].
    by apply timestamp_of_parses. }
  assert (Forall timestamp_parses items) as Hparses.
  { apply Forall_forall. intros it' Hit'.
    unfold Aggregator.timestamp_parses.
    destruct (it' !! "pickup_datetime") as [v|] eqn:Hv; [simpl|done].
    destruct (to_datetime v) eqn:Hraise; [done|].
    by rewrite (handler_raises env pages it' v) in Hret. }
  destruct (env !! "DYNAMODB_TABLE_NAME") as [table|] eqn:Htable.
  2: { unfold Aggregator.lambda_handler in Hret. by rewrite Htable in Hret. }
  destruct (env !! "ATHENA_BUCKET_NAME") as [bucket|] eqn:Hbucket.
  { by exists bucket. }
  exfalso. revert Hret. unfold Aggregator.lambda_handler.
  rewrite Htable. simpl. fold items.
  assert (ts ∈ timestamps items) as Hin.
  { apply elem_of_timestamps. by exists it. }
  destruct items as [|it0 items'] eqn:Hitems.
  { by apply not_elem_of_nil in Hit. }
  rewrite <-Hitems in *.
  rewrite compute_kpis_parsed; [|by rewrite Hitems| |done|done].
  2: { unfold items. apply scan_all_items_filtered. }
  simpl. destruct (timestamps items) as [|t0 keys].
  { by apply not_elem_of_nil in Hin. }
  assert (∀ row, upload env row = None) as Hupload.
  { intros row. unfold Aggregator.upload. by rewrite Hbucket. }
  rewrite fmap_cons. csimpl. by rewrite Hupload.
Qed.

(** C10.  Two items with distinct timestamps of the same calendar day
    make two groups, and both are written to the one path of that day;
    what the bucket holds there after the run is the row of a single
    timestamp, the latest one that shares the path, and not a row over
    all trips of the day. *)
Theorem same_day_groups_overwrite_each_other
    (env : gmap string string) pages writes
    (objects : gmap string string) (it1 it2 : item) t1 t2 :
  let items := scan_all_items pages in
  let path := "kpis/date=" +:+ Aggregator.strftime_Ymd t1 +:+ "/kpi.json" in
  lambda_handler env pages = Some writes →
  it1 ∈ items → it2 ∈ items →
  timestamp_of it1 = Some t1 → timestamp_of it2 = Some t2 →
  t1 ≠ t2 →
  Aggregator.year t1 = Aggregator.year t2 →
  Aggregator.month t1 = Aggregator.month t2 →
  Aggregator.day t1 = Aggregator.day t2 →
  ∃ bucket i j t,
    i ≠ j ∧
    writes !! i = Some (written bucket (kpi_of t1 items)) ∧
    writes !! j = Some (written bucket (kpi_of t2 items)) ∧
    Aggregator.Key (written bucket (kpi_of t1 items)) = path ∧
    Aggregator.Key (written bucket (kpi_of t2 items)) = path ∧
    Aggregator.put_objects objects writes !! path
    = Some (to_json (kpi_of t items)) ∧
    Aggregator.ts_le t1 t ∧ Aggregator.ts_le t2 t ∧
    (t ≠ t1 ∨ t ≠ t2).
Proof.
  intros items path Hret Hit1 Hit2 Ht1 Ht2 Hne Hyear Hmonth Hday.
  destruct (handler_returns_inv env pages writes it1 t1 Hret Hit1 Ht1)
    as (bucket & Htable & Hbucket & Hcol & Hparses).
  rewrite (handler_writes env pages bucket) in Hret by done.
  injection Hret as <-. fold items.
  assert (Aggregator.strftime_Ymd t2 = Aggregator.strftime_Ymd t1) as Hdate.
  { unfold Aggregator.strftime_Ymd. by rewrite Hyear, Hmonth, Hday. }
  assert (t1 ∈ timestamps items) as Hin1.
  { apply elem_of_timestamps. by exists it1. }
  assert (t2 ∈ timestamps items) as Hin2.
  { apply elem_of_timestamps. by exists it2. }
  pose (same_path := λ ts : Timestamp,
          "kpis/date=" +:+ Aggregator.strftime_Ymd ts +:+ "/kpi.json" = path).
  assert (same_path t1) as Hp1 by done.
  assert (same_path t2) as Hp2 by (unfold same_path; by rewrite Hdate).
  destruct (last_filter_is_Some same_path (timestamps items) t1 Hin1 Hp1)
    as [t Hlast].
  apply list_elem_of_lookup in Hin1 as [i Hi].
  apply list_elem_of_lookup in Hin2 as [j Hj].
  exists bucket, i, j, t. split_and!.
  - intros ->. rewrite Hi in Hj. by injection Hj.
  - by rewrite list_lookup_fmap, Hi.
  - by rewrite list_lookup_fmap, Hj.
  - done.
  - exact Hp2.
  - rewrite put_objects_lookup.
    rewrite (filter_fmap_comm _ (λ w, Aggregator.Key w = path)).
    rewrite fmap_last. simpl.
    change (λ x : Timestamp,
              "kpis/date=" +:+ Aggregator.strftime_Ymd x +:+ "/kpi.json"
              = path) with same_path.
    by rewrite Hlast.
  - eapply (last_filter_sorted _ same_path); [|exact Hlast| |exact Hp1].
    + apply timestamps_sorted.
    + apply list_elem_of_lookup. by exists i.
  - eapply (last_filter_sorted _ same_path); [|exact Hlast| |exact Hp2].
    + apply timestamps_sorted.
    + apply list_elem_of_lookup. by exists j.
  - destruct (decide (t = t1)) as [->|]; [by right|by left].
Qed.

End aggregator_properties.

(** ** The Aggregator on the example data *)

#[local] Abbreviation sample_aggregator :=
  (Aggregator.lambda_handler 0%Q Sample.num_add Sample.num_div
     Sample.num_max Sample.num_min Sample.to_numeric Sample.to_datetime
     Sample.to_json).

#[local] Abbreviation sample_kpi_of :=
  (Aggregator.kpi_of 0%Q Sample.num_add Sample.num_div Sample.num_max
     Sample.num_min Sample.to_numeric Sample.to_datetime).

#[local] Abbreviation sample_written := (Aggregator.written Sample.to_json).



(** C5 on the three records of the repository's test: three objects, each
    with count 1 and every statistic equal to the trip's fare. *)
Lemma one_object_per_distinct_timestamp_witness :
  ∃ writes,
    sample_aggregator Sample.env
      [[Sample.trip_0830; Sample.trip_0900; Sample.trip_1015]]
    = Some writes ∧
    writes ≡ₚ
      (λ '(ts, x),
         {| Aggregator.Bucket := "test-athena-bucket";
            Aggregator.Key :=
              "kpis/date=" +:+ Aggregator.strftime_Ymd ts +:+ "/kpi.json";
            Aggregator.Body :=
              Sample.to_json
                {| Aggregator.pickup_datetime := ts;
                   Aggregator.total_fare := x;
                   Aggregator.count_trips := 1;
                   Aggregator.average_fare := Some x;
                   Aggregator.max_fare := Some x;
                   Aggregator.min_fare := Some x |};
            Aggregator.ContentType := "application/json" |})
        <$> [(Sample.at_time 8 30, 20%Q); (Sample.at_time 9 0, 25%Q);
             (Sample.at_time 10 15, 15%Q)].
Proof.
  apply (proj2 (one_object_per_distinct_timestamp
                  0%Q Sample.num_add Sample.num_div Sample.num_max
                  Sample.num_min Sample.to_numeric Sample.to_datetime
                  Sample.to_json Sample.env
                  [[Sample.trip_0830; Sample.trip_0900; Sample.trip_1015]]
                  "test-athena-bucket"
                  ltac:(compute_done) ltac:(reflexivity) ltac:(done)
                  ltac:(compute_done))
               Sample.trip_0830 Sample.trip_0900 Sample.trip_1015).
  - intros x Hx. rewrite !elem_of_cons in Hx.
    destruct Hx as [-> | [-> | [-> | Hx]]];
      [| | |by apply not_elem_of_nil in Hx]; split; reflexivity.
  - reflexivity.
  - vm_compute. reflexivity.
  - vm_compute. reflexivity.
  - vm_compute. reflexivity.
  - vm_compute. reflexivity.
  - vm_compute. reflexivity.
  - vm_compute. reflexivity.
  - done.
  - done.
  - done.
Defined.

(** C10 on the same three records: the three objects go to the one path of
    2025-04-22, and the bucket ends up with the row of 10:15. *)
Lemma same_day_groups_overwrite_each_other_witness :
  let items := [Sample.trip_0830; Sample.trip_0900; Sample.trip_1015] in
  let path := "kpis/date=2025-04-22/kpi.json" in
  ∃ bucket i j t,
    i ≠ j ∧
    Sample.kpi_writes !! i
    = Some (sample_written bucket (sample_kpi_of (Sample.at_time 8 30) items)) ∧
    Sample.kpi_writes !! j
    = Some (sample_written bucket (sample_kpi_of (Sample.at_time 9 0) items)) ∧
    Aggregator.Key
      (sample_written bucket (sample_kpi_of (Sample.at_time 8 30) items))
    = path ∧
    Aggregator.Key
      (sample_written bucket (sample_kpi_of (Sample.at_time 9 0) items))
    = path ∧
    Aggregator.put_objects ∅ Sample.kpi_writes !! path
    = Some (Sample.to_json (sample_kpi_of t items)) ∧
    Aggregator.ts_le (Sample.at_time 8 30) t ∧
    Aggregator.ts_le (Sample.at_time 9 0) t ∧
    (t ≠ Sample.at_time 8 30 ∨ t ≠ Sample.at_time 9 0).
Proof.
  apply (same_day_groups_overwrite_each_other
           0%Q Sample.num_add Sample.num_div Sample.num_max Sample.num_min
           Sample.to_numeric Sample.to_datetime Sample.to_json Sample.env
           [[Sample.trip_0830; Sample.trip_0900; Sample.trip_1015]]
           Sample.kpi_writes ∅ Sample.trip_0830 Sample.trip_0900).
  - vm_compute. reflexivity.
  - compute_done.
  - compute_done.
  - vm_compute. reflexivity.
  - vm_compute. reflexivity.
  - done.
  - reflexivity.
  - reflexivity.
  - reflexivity.
Defined.

(** The example, evaluated: the bucket holds one object, the row of the
    trip of 10:15. *)
Example same_day_example :
  Aggregator.put_objects ∅ Sample.kpi_writes
  = {[ "kpis/date=2025-04-22/kpi.json" :=
         "{pickup_datetime: 2025-04-22T10:15:00, total_fare: 15/1, count_trips: 1, average_fare: 15/1, max_fare: 15/1, min_fare: 15/1}" ]}.
Proof. vm_compute. reflexivity. Qed.

(** * Further properties of the Merger *)

Section merger_further.
Context {value : Type} `{Countable value}.
Variable b64decode_utf8 : string → option string.
Variable json_loads : string → option (@Merger.json value).
Variable get_item_accepts : value → bool.
Variable put_item_accepts : gmap string value → bool.

#[local] Abbreviation item := (gmap string value).
#[local] Abbreviation dynamodb := (@Merger.dynamodb value _ _).
#[local] Abbreviation process_record :=
  (Merger.process_record b64decode_utf8 json_loads get_item_accepts
     put_item_accepts).
#[local] Abbreviation lambda_handler :=
  (Merger.lambda_handler b64decode_utf8 json_loads get_item_accepts
     put_item_accepts).
#[local] Abbreviation trip_id_of :=
  (Merger.trip_id_of b64decode_utf8 json_loads).
#[local] Abbreviation payload_for :=
  (Merger.payload_for b64decode_utf8 json_loads).
#[local] Abbreviation merged_entry :=
  (Merger.merged_entry get_item_accepts put_item_accepts).
#[local] Abbreviation merge_all k :=
  (foldl (λ (acc payload : item), Merger.merge acc payload k)).

(** X1.  The entry a batch leaves under a trip id is made of the entry
    that was there and the payloads the batch carries for that trip, in
    their order, each merged in when the table takes the two calls made
    for it and skipped when it refuses one: records of other trips and
    records that fail, wherever they stand in the batch, make no
    difference to it. *)
Theorem trip_item_depends_on_its_own_payloads k records (table : dynamodb) :
  Merger.items (lambda_handler records table).1 !! k
  = foldl (λ entry payload,
             let merged_item := Merger.merge (default ∅ entry) payload k in
             if get_item_accepts k && put_item_accepts merged_item
             then Some merged_item
             else entry)
          (Merger.items table !! k)
          (omap (payload_for k) records).
Proof. apply handler_lookup. Qed.

Lemma process_record_grows record (table : dynamodb) k it :
  Merger.items table !! k = Some it →
  ∃ it', Merger.items (process_record table record) !! k = Some it' ∧
         dom it ⊆ dom it'.
Proof.
  intros Hit.
  destruct (process_record_cases b64decode_utf8 json_loads get_item_accepts
              put_item_accepts record table)
    as [Hsame|(k' & payload & _ & _ & _ & ->)].
  { exists it. by rewrite Hsame. }
  simpl. rewrite lookup_insert.
  case_decide as Hkk; [|by exists it].
  subst k'. eexists. split; [done|].
  rewrite merge_dom, Hit. simpl. apply union_subseteq_r.
Qed.

(** X2.  The handler never deletes an item and never drops a field: an
    item of the table is still there after a batch, with at least the
    fields it had. *)
Theorem merger_never_removes records (table : dynamodb) k it :
  Merger.items table !! k = Some it →
  ∃ it', Merger.items (lambda_handler records table).1 !! k = Some it' ∧
         dom it ⊆ dom it'.
Proof.
  simpl. revert table it. induction records as [|r rs IH]; intros table it Hit.
  { by exists it. }
  simpl. destruct (process_record_grows r table k it Hit) as (it1 & Hit1 & Hdom1).
  destruct (IH _ _ Hit1) as (it' & Hit' & Hdom').
  exists it'. split; [done|]. by etrans.
Qed.

Lemma last_sent_twice f (payloads : list item) :
  Merger.last_sent f (payloads ++ payloads) = Merger.last_sent f payloads.
Proof.
  unfold Merger.last_sent. rewrite omap_app, last_app.
  by destruct (last (omap _ payloads)).
Qed.

Lemma merge_all_twice k (acc : item) payloads :
  merge_all k acc (payloads ++ payloads) = merge_all k acc payloads.
Proof.
  destruct (decide (payloads = [])) as [->|Hne]; [done|].
  apply map_eq. intros f. destruct (decide (f = "id")) as [->|Hf].
  - rewrite !merge_all_lookup_id; [done..|]. by destruct payloads.
  - rewrite !merge_all_lookup_ne by done. by rewrite last_sent_twice.
Qed.

(** The entry of a trip when the payload alone decides whether the table
    takes the merged item: the payloads it takes are merged in, in order. *)
Lemma merged_entries_taken k (entry : option item) payloads :
  get_item_accepts k = true →
  (∀ existing existing' payload : item,
     put_item_accepts (Merger.merge existing payload k)
     = put_item_accepts (Merger.merge existing' payload k)) →
  foldl (merged_entry k) entry payloads
  = match filter (λ payload,
                    put_item_accepts (Merger.merge ∅ payload k) = true)
                 payloads with
    | [] => entry
    | taken => Some (merge_all k (default ∅ entry) taken)
    end.
Proof.
  intros Hget Hput. revert entry.
  induction payloads as [|p ps IH]; intros entry; [done|].
  cbn [foldl]. rewrite IH, filter_cons. unfold Merger.merged_entry at 1 2.
  rewrite Hget, (Hput _ ∅). simpl.
  destruct (put_item_accepts (Merger.merge ∅ p k)) eqn:Hp.
  - rewrite decide_True by done. simpl. by destruct (filter _ ps).
  - rewrite decide_False by (by intros ?). done.
Qed.

(** X3.  Delivering a batch a second time changes no item, when the
    payload alone decides whether the table takes a merged item (as it
    does for a table that takes every item, or refuses by the key): after
    the batch, the batch once more leaves the table's items as they
    are. *)
Theorem redelivery_changes_nothing records (table : dynamodb) :
  (∀ k (existing existing' payload : item),
     put_item_accepts (Merger.merge existing payload k)
     = put_item_accepts (Merger.merge existing' payload k)) →
  Merger.items (lambda_handler records (lambda_handler records table).1).1
  = Merger.items (lambda_handler records table).1.
Proof.
  intros Hput. simpl. apply map_eq. intros k.
  rewrite <-foldl_app, !handler_lookup, omap_app.
  destruct (get_item_accepts k) eqn:Hget.
  - rewrite !merged_entries_taken by done. rewrite filter_app.
    set (taken := filter _ (omap (payload_for k) records)).
    destruct taken as [|p ps] eqn:Htaken; [done|].
    rewrite <-Htaken.
    assert (taken ++ taken ≠ []) as Hne by (by rewrite Htaken).
    destruct (taken ++ taken) as [|q qs] eqn:Hqs; [done|].
    rewrite <-Hqs, merge_all_twice. by rewrite Htaken.
  - by rewrite !merged_entries_refused.
Qed.

(** X4.  Two neighbouring records that do not name the same trip may
    change places in a batch: the items the batch leaves are the same. *)
Theorem records_of_different_trips_commute
    before r1 r2 after (table : dynamodb) :
  trip_id_of r1 ≠ trip_id_of r2 →
  Merger.items (lambda_handler (before ++ r1 :: r2 :: after) table).1
  = Merger.items (lambda_handler (before ++ r2 :: r1 :: after) table).1.
Proof.
  intros Hne. simpl. apply map_eq. intros k.
  rewrite !handler_lookup.
  assert (omap (payload_for k) (before ++ r1 :: r2 :: after)
          = omap (payload_for k) (before ++ r2 :: r1 :: after)) as ->; [|done].
  rewrite !omap_app. f_equal. csimpl.
  destruct (payload_for k r1) as [p1|] eqn:H1,
           (payload_for k r2) as [p2|] eqn:H2; try done.
  apply payload_for_trip_id in H1, H2. congruence.
Qed.

Lemma process_record_put_ids record (table : dynamodb) :
  (λ it : item, it !! "id") <$> Merger.put_calls (process_record table record)
  = ((λ it : item, it !! "id") <$> Merger.put_calls table)
      ++ match trip_id_of record with
         | Some k => if get_item_accepts k then [Some k] else []
         | None => []
         end.
Proof.
  rewrite process_record_put_calls, fmap_app. f_equal.
  destruct (trip_id_of record) as [k|] eqn:Htrip; [|done].
  destruct (payload_for k record) as [payload|] eqn:Hp.
  - destruct (get_item_accepts k); [|done].
    by rewrite fmap_cons, merge_lookup_id.
  - exfalso. revert Htrip Hp.
    unfold Merger.trip_id_of, Merger.payload_for.
    destruct (b64decode_utf8 _) as [d|]; [simpl|done].
    destruct (json_loads d) as [[fields|]|]; simpl; try done.
    intros Hk. by rewrite decide_True.
Qed.

(** X5.  The handler calls [put_item] once for each record that yields a
    [trip_id] the table admits as a key, in the order of the batch, with
    an item whose [id] is that [trip_id]; for the other records (those
    that fail before, and those whose [get_item] call is refused) it
    calls nothing. *)
Theorem one_put_item_per_readable_record records (table : dynamodb) :
  (λ it : item, it !! "id")
    <$> Merger.put_calls (lambda_handler records table).1
  = ((λ it : item, it !! "id") <$> Merger.put_calls table)
      ++ (Some <$> omap (λ record,
                           k ← trip_id_of record;
                           if get_item_accepts k then Some k else None)
                        records).
Proof.
  simpl. revert table. induction records as [|r rs IH]; intros table.
  { simpl. by rewrite app_nil_r. }
  cbn [foldl]. rewrite IH, process_record_put_ids. csimpl.
  rewrite <-(assoc_L (++)).
  destruct (trip_id_of r) as [k|]; [|done]. simpl.
  by destruct (get_item_accepts k).
Qed.

End merger_further.
(** * Further properties of the Ingestor *)

Section ingestor_further.
Variable DictReader : string → list (gmap string string).
Variable json_dumps : gmap string string → string.
Variable s3_objects : gmap (string * string) string.
Variable kinesis_accepts : Ingestor.put_record_request → bool.

#[local] Abbreviation row := (gmap string string).
#[local] Abbreviation put_record := (Ingestor.put_record kinesis_accepts).
#[local] Abbreviation request_of_row := (Ingestor.request_of_row json_dumps).
#[local] Abbreviation send_file :=
  (Ingestor.send_file DictReader json_dumps s3_objects kinesis_accepts).
#[local] Abbreviation lambda_handler :=
  (Ingestor.lambda_handler DictReader json_dumps s3_objects kinesis_accepts).
#[local] Abbreviation rows_of := (Ingestor.rows_of DictReader s3_objects).
#[local] Abbreviation after_calls := Ingestor.after_calls.
#[local] Abbreviation attempted_rows :=
  (Ingestor.attempted_rows json_dumps kinesis_accepts).
#[local] Abbreviation taken_rows :=
  (Ingestor.taken_rows json_dumps kinesis_accepts).

(** X6.  With a stream name the handler fetches the file of every
    notification once, in order, whatever went wrong with the files before
    it; for each file it fetched it requests the rows up to and including
    the first one the stream refuses, and the stream takes those before
    that one; and it returns [{"status": "done"}]. *)
Theorem ingestor_effects stream_name Records w :
  stream_name ≠ "" →
  lambda_handler (Some stream_name) Records w
  = (after_calls w
       ((λ record, (Ingestor.bucket_name record, Ingestor.object_key record))
          <$> Records)
       (request_of_row stream_name
          <$> (Records ≫= λ record,
                 attempted_rows stream_name (rows_of record)))
       (request_of_row stream_name
          <$> (Records ≫= λ record, taken_rows stream_name (rows_of record))),
     Some {[ "status" := "done" ]}).
Proof.
  intros Hname. destruct stream_name as [|c name]; [done|].
  rewrite handler_configured. f_equal. apply send_files_effects.
Qed.

Lemma taken_prefix_of_attempted stream_name (rows : list row) :
  taken_rows stream_name rows `prefix_of` attempted_rows stream_name rows.
Proof.
  induction rows as [|r rows IH]; [done|]. simpl.
  destruct (kinesis_accepts _); [by apply prefix_cons|apply prefix_nil].
Qed.

Lemma attempted_prefix_of_rows stream_name (rows : list row) :
  attempted_rows stream_name rows `prefix_of` rows.
Proof.
  induction rows as [|r rows IH]; [done|]. simpl.
  destruct (kinesis_accepts _); [by apply prefix_cons|].
  by exists rows.
Qed.

Lemma prefix_of_fmap {A B} (f : A → B) (l k : list A) :
  l `prefix_of` k → f <$> l `prefix_of` f <$> k.
Proof. intros [rest ->]. exists (f <$> rest). apply fmap_app. Qed.

Lemma attempted_length stream_name (rows : list row) :
  (length (attempted_rows stream_name rows)
   ≤ S (length (taken_rows stream_name rows)))%nat.
Proof.
  induction rows as [|r rows IH]; simpl; [lia|].
  destruct (kinesis_accepts _); simpl; lia.
Qed.

(** X7.  From one file the stream takes the records of the first rows, in
    the order of the file and without a gap, never a record of a row that
    comes after a refused one; and the handler issues at most one request
    that is refused. *)
Theorem rows_are_sent_in_order_until_one_fails stream_name record w :
  stream_name ≠ "" →
  let w' := (lambda_handler (Some stream_name) [record] w).1 in
  let requests := request_of_row stream_name <$> rows_of record in
  ∃ taken calls,
    Ingestor.stream w' = Ingestor.stream w ++ taken ∧
    Ingestor.put_record_calls w' = Ingestor.put_record_calls w ++ calls ∧
    taken `prefix_of` calls ∧
    calls `prefix_of` requests ∧
    (length calls ≤ S (length taken))%nat ∧
    Forall (λ request, kinesis_accepts request = true) taken.
Proof.
  intros Hname. cbv zeta. destruct stream_name as [|c name]; [done|].
  rewrite handler_configured. cbn [foldl fst]. rewrite send_file_effects.
  unfold Ingestor.after_calls. cbn [Ingestor.stream Ingestor.put_record_calls].
  eexists _, _. split_and!; [done|done|..].
  - apply prefix_of_fmap, taken_prefix_of_attempted.
  - apply prefix_of_fmap, attempted_prefix_of_rows.
  - rewrite !length_fmap. apply attempted_length.
  - apply Forall_fmap. generalize (rows_of record). intros rows.
    induction rows as [|r rows IH]; [constructor|]. simpl.
    destruct (kinesis_accepts _) eqn:Hr; [|constructor].
    by constructor.
Qed.

End ingestor_further.

(** * Further properties of the Aggregator *)

Section scan_properties.
Context {value : Type}.

#[local] Abbreviation item := (gmap string value).
#[local] Abbreviation scan_all_items := (@Aggregator.scan_all_items value).
#[local] Abbreviation table_scan := (@Aggregator.table_scan value).
#[local] Abbreviation scan_loop := (@Aggregator.scan_loop value).

Lemma scan_all_items_concat (pages : list (list item)) :
  scan_all_items pages
  = concat (filter Aggregator.filter_expression <$> pages).
Proof.
  unfold Aggregator.scan_all_items.
  assert (∀ acc : list item,
            foldl (λ items page,
                     items ++ filter Aggregator.filter_expression page)
                  acc pages
            = acc ++ concat (filter Aggregator.filter_expression <$> pages))
    as Hgen; [|by rewrite Hgen].
  induction pages as [|page pages IH]; intros acc.
  { simpl. by rewrite app_nil_r. }
  cbn [foldl]. rewrite IH, fmap_cons. simpl. by rewrite (assoc_L (++)).
Qed.

(** The loop from the page [i] on. *)
Lemma scan_loop_from (pages : list (list item)) fuel key i items :
  default 0 key = i →
  (i < length pages)%nat →
  scan_loop fuel (table_scan pages) items key
  = if decide (length pages - i ≤ fuel)%nat
    then Some (items ++ concat (filter Aggregator.filter_expression
                                  <$> drop i pages))
    else None.
Proof.
  revert key i items.
  induction fuel as [|fuel IH]; intros key i items Hkey Hi.
  { simpl. rewrite decide_False by lia. done. }
  destruct (lookup_lt_is_Some_2 pages i Hi) as [page Hpage].
  cbn [Aggregator.scan_loop]. unfold Aggregator.table_scan.
  cbn [Aggregator.Items Aggregator.LastEvaluatedKey]. cbv zeta.
  rewrite Hkey, Hpage. cbn [default].
  rewrite (drop_S _ _ _ Hpage), fmap_cons. cbn [concat].
  destruct (decide (S i < length pages)%nat) as [Hnext|Hlast].
  - fold (table_scan pages). rewrite (IH (Some (S i)) (S i)) by done.
    destruct (decide (length pages - S i ≤ fuel)%nat);
      [rewrite decide_True by lia|rewrite decide_False by lia]; [|done].
    by rewrite (assoc_L (++)).
  - rewrite decide_True by lia.
    rewrite drop_ge by lia. simpl. by rewrite app_nil_r.
Qed.

(** X8.  The [while True] loop of [scan_all_items], run against a table
    that is served in pages, scans once per page (once for a table without
    pages), passes each [LastEvaluatedKey] on as the next
    [ExclusiveStartKey], and returns the matching items of all pages in
    page order; with fewer iterations it has not returned yet. *)
Theorem scan_loop_reads_every_page (pages : list (list item)) fuel :
  scan_loop fuel (table_scan pages) [] None
  = if decide (max 1 (length pages) ≤ fuel)%nat
    then Some (scan_all_items pages)
    else None.
Proof.
  destruct pages as [|page pages].
  - destruct fuel as [|fuel]; [done|].
    rewrite decide_True by (simpl; lia). done.
  - rewrite (scan_loop_from _ _ None 0) by (simpl; done || lia).
    rewrite scan_all_items_concat, drop_0.
    destruct (decide (length (page :: pages) - 0 ≤ fuel)%nat);
      [rewrite decide_True by (simpl in *; lia)
      |rewrite decide_False by (simpl in *; lia)]; done.
Qed.

Lemma filter_concat {A} (P : A → Prop) `{∀ x, Decision (P x)}
    (ls : list (list A)) :
  filter P (concat ls) = concat (filter P <$> ls).
Proof.
  induction ls as [|l ls IH]; [done|].
  rewrite fmap_cons. simpl. by rewrite filter_app, IH.
Qed.

Lemma scan_all_items_filter (pages : list (list item)) :
  scan_all_items pages
  = filter Aggregator.filter_expression (concat pages).
Proof. by rewrite scan_all_items_concat, filter_concat. Qed.

End scan_properties.

Section aggregator_further.
Context {value num : Type}.
Variable num_zero : num.
Variable num_add : num → num → num.
Variable num_div : num → nat → num.
Variable num_max : num → num → num.
Variable num_min : num → num → num.
Variable to_numeric : value → option num.
Variable to_datetime : value → option (option Aggregator.Timestamp).
Variable to_json : @Aggregator.kpi num → string.

#[local] Abbreviation item := (gmap string value).
#[local] Abbreviation Timestamp := Aggregator.Timestamp.
#[local] Abbreviation scan_all_items := (@Aggregator.scan_all_items value).
#[local] Abbreviation compute_kpis :=
  (Aggregator.compute_kpis num_zero num_add num_div num_max num_min
     to_numeric to_datetime).
#[local] Abbreviation upload := (Aggregator.upload to_json).
#[local] Abbreviation lambda_handler :=
  (Aggregator.lambda_handler num_zero num_add num_div num_max num_min
     to_numeric to_datetime to_json).
#[local] Abbreviation timestamp_of := (Aggregator.timestamp_of to_datetime).
#[local] Abbreviation timestamp_parses :=
  (Aggregator.timestamp_parses to_datetime).
#[local] Abbreviation fare_of := (Aggregator.fare_of to_numeric).
#[local] Abbreviation group_of := (Aggregator.group_of to_datetime).
#[local] Abbreviation kpi_of :=
  (Aggregator.kpi_of num_zero num_add num_div num_max num_min
     to_numeric to_datetime).
#[local] Abbreviation timestamps := (Aggregator.timestamps to_datetime).
#[local] Abbreviation written := (Aggregator.written to_json).

(** X9.  The scan returns the items of the table that have both a
    [fare_amount] and an [estimated_fare_amount], in table order, however
    the table is cut into pages; and the handler does on the table what it
    does on these items alone. *)
Theorem only_items_with_both_fares_count
    (env : gmap string string) (pages : list (list item)) :
  scan_all_items pages
  = filter (λ it : item, is_Some (it !! "fare_amount") ∧
                         is_Some (it !! "estimated_fare_amount"))
           (concat pages) ∧
  lambda_handler env pages
  = lambda_handler env [scan_all_items pages].
Proof.
  split; [apply scan_all_items_filter|].
  unfold Aggregator.lambda_handler.
  assert (scan_all_items [scan_all_items pages] = scan_all_items pages)
    as ->; [|done].
  rewrite (scan_all_items_filter [_]). simpl. rewrite app_nil_r.
  rewrite scan_all_items_filter, list_filter_filter.
  apply list_filter_iff. intros it. tauto.
Qed.

(** X10.  When no item of the table has both fares the handler writes
    nothing and returns, with or without a bucket name. *)
Theorem nothing_matching_writes_nothing
    (env : gmap string string) (pages : list (list item)) :
  is_Some (env !! "DYNAMODB_TABLE_NAME") →
  Forall (λ it : item, it !! "fare_amount" = None ∨
                       it !! "estimated_fare_amount" = None)
         (concat pages) →
  lambda_handler env pages = Some [].
Proof.
  intros [table Htable] Hnone. unfold Aggregator.lambda_handler.
  rewrite Htable. simpl.
  assert (scan_all_items pages = []) as ->; [|done].
  rewrite scan_all_items_filter.
  destruct (filter _ (concat pages)) as [|it items] eqn:Hfilter; [done|].
  assert (it ∈ filter Aggregator.filter_expression (concat pages)) as Hit
    by (rewrite Hfilter; by left).
  apply list_elem_of_filter in Hit as [[[x Hx] [y Hy]] Hit].
  destruct (proj1 (Forall_forall _ _) Hnone it Hit); congruence.
Qed.

(** X11.  Without a bucket name the handler raises when it has a group to
    write, at the first [put_object] call it would make, and returns when
    it has none. *)
Theorem missing_bucket_name_raises_at_first_write
    (env : gmap string string) (pages : list (list item)) :
  let items := scan_all_items pages in
  is_Some (env !! "DYNAMODB_TABLE_NAME") →
  env !! "ATHENA_BUCKET_NAME" = None →
  Exists (λ it : item, is_Some (it !! "pickup_datetime")) items →
  Forall timestamp_parses items →
  lambda_handler env pages
  = if decide (Exists (λ it, is_Some (timestamp_of it)) items)
    then None else Some [].
Proof.
  intros items [table Htable] Hbucket Hcol Hparses.
  unfold Aggregator.lambda_handler. rewrite Htable. simpl. fold items.
  destruct items as [|it0 items'] eqn:Hitems.
  { by apply Exists_nil in Hcol. }
  rewrite <-Hitems in *.
  rewrite compute_kpis_parsed; [|by rewrite Hitems| |done|done].
  2: { unfold items. apply scan_all_items_filtered. }
  simpl.
  assert (∀ row, upload env row = None) as Hupload.
  { intros row. unfold Aggregator.upload. by rewrite Hbucket. }
  destruct (timestamps items) as [|ts keys] eqn:Hkeys.
  - rewrite decide_False; [done|].
    intros (it & Hit & ts & Hts)%Exists_exists.
    assert (ts ∈ timestamps items) as Hin
      by (apply elem_of_timestamps; by exists it).
    rewrite Hkeys in Hin. by apply not_elem_of_nil in Hin.
  - rewrite decide_True.
    + rewrite fmap_cons. csimpl. by rewrite Hupload.
    + assert (ts ∈ timestamps items) as Hin by (rewrite Hkeys; by left).
      apply elem_of_timestamps in Hin as (it & Hit & Hts).
      apply Exists_exists. exists it. by rewrite Hts.
Qed.

(** X12.  When the scan returns items and none of them has a
    [pickup_datetime], the handler raises: the data frame has no such
    column. *)
Theorem no_pickup_datetime_column_raises
    (env : gmap string string) (pages : list (list item)) :
  scan_all_items pages ≠ [] →
  Forall (λ it : item, it !! "pickup_datetime" = None) (scan_all_items pages) →
  lambda_handler env pages = None.
Proof.
  intros Hne Hnone. unfold Aggregator.lambda_handler.
  destruct (env !! "DYNAMODB_TABLE_NAME"); [simpl|done].
  destruct (scan_all_items pages) as [|it items] eqn:Hitems; [done|].
  assert (compute_kpis (it :: items) = None) as ->; [|done].
  unfold Aggregator.compute_kpis.
  destruct (Aggregator.column "fare_amount" _); [simpl|done].
  rewrite (column_None "pickup_datetime"); [done|].
  intros (it' & Hit' & [v Hv])%Exists_exists.
  rewrite (proj1 (Forall_forall _ _) Hnone it' Hit') in Hv. done.
Qed.

(** Every object the handler puts is the row of a timestamp some scanned
    item has, put under the path of that timestamp's day in the bucket the
    environment names. *)
Lemma handler_returns_writes (env : gmap string string)
    (pages : list (list item)) writes w :
  let items := scan_all_items pages in
  lambda_handler env pages = Some writes →
  w ∈ writes →
  ∃ bucket ts,
    env !! "ATHENA_BUCKET_NAME" = Some bucket ∧
    ts ∈ timestamps items ∧
    w = written bucket (kpi_of ts items).
Proof.
  intros items Hret Hw.
  assert (Forall timestamp_parses items) as Hparses.
  { apply Forall_forall. intros it' Hit'.
    unfold Aggregator.timestamp_parses.
    destruct (it' !! "pickup_datetime") as [v|] eqn:Hv; [simpl|done].
    destruct (to_datetime v) eqn:Hraise; [done|].
    by rewrite (handler_raises _ _ _ _ _ _ _ _ env pages it' v) in Hret. }
  revert Hret. unfold Aggregator.lambda_handler.
  destruct (env !! "DYNAMODB_TABLE_NAME") as [table|]; [simpl|done].
  fold items. destruct items as [|it0 items'] eqn:Hitems.
  { intros [= <-]. by apply not_elem_of_nil in Hw. }
  rewrite <-Hitems in *.
  destruct (decide (Exists (λ it : item, is_Some (it !! "pickup_datetime"))
                           items)) as [Hcol|Hcol].
  2: { unfold Aggregator.compute_kpis.
       destruct (Aggregator.column "fare_amount" _); [simpl|done].
       by rewrite (column_None "pickup_datetime"). }
  rewrite compute_kpis_parsed; [|by rewrite Hitems| |done|done].
  2: { unfold items. apply scan_all_items_filtered. }
  simpl. destruct (env !! "ATHENA_BUCKET_NAME") as [bucket|] eqn:Hbucket.
  - rewrite (upload_all _ _ bucket) by done. intros [= <-].
    apply list_elem_of_fmap in Hw as (row & -> & Hrow).
    apply list_elem_of_fmap in Hrow as (ts & -> & Hts).
    by exists bucket, ts.
  - destruct (timestamps items) as [|ts keys].
    { intros [= <-]. by apply not_elem_of_nil in Hw. }
    assert (∀ row, upload env row = None) as Hupload.
    { intros row. unfold Aggregator.upload. by rewrite Hbucket. }
    rewrite fmap_cons. csimpl. by rewrite Hupload.
Qed.

(** X13.  The handler puts objects only in the bucket the environment
    names and only under the paths of the days of the timestamps its
    scanned items have: every other object of the bucket is left as it
    was. *)
Theorem only_day_objects_are_written
    (env : gmap string string) (pages : list (list item)) writes
    (objects : gmap string string) :
  let items := scan_all_items pages in
  let path := λ ts, "kpis/date=" +:+ Aggregator.strftime_Ymd ts
                      +:+ "/kpi.json" in
  lambda_handler env pages = Some writes →
  (∀ w, w ∈ writes →
     env !! "ATHENA_BUCKET_NAME" = Some (Aggregator.Bucket w) ∧
     Aggregator.ContentType w = "application/json" ∧
     ∃ it ts, it ∈ items ∧ timestamp_of it = Some ts ∧
              Aggregator.Key w = path ts) ∧
  (∀ key,
     (∀ it ts, it ∈ items → timestamp_of it = Some ts → key ≠ path ts) →
     Aggregator.put_objects objects writes !! key = objects !! key).
Proof.
  intros items path Hret.
  assert (∀ w, w ∈ writes →
            env !! "ATHENA_BUCKET_NAME" = Some (Aggregator.Bucket w) ∧
            Aggregator.ContentType w = "application/json" ∧
            ∃ it ts, it ∈ items ∧ timestamp_of it = Some ts ∧
                     Aggregator.Key w = path ts) as Hwrites.
  { intros w Hw.
    destruct (handler_returns_writes env pages writes w Hret Hw)
      as (bucket & ts & Hbucket & Hts & ->).
    apply elem_of_timestamps in Hts as (it & Hit & Hts).
    split_and!; [done|done|]. by exists it, ts. }
  split; [done|].
  intros key Hkey. rewrite put_objects_lookup.
  destruct (last (filter _ writes)) as [w|] eqn:Hlast; [|done].
  exfalso. apply last_Some_elem_of in Hlast.
  apply list_elem_of_filter in Hlast as [Hk Hw].
  destruct (Hwrites w Hw) as (_ & _ & it & ts & Hit & Hts & Hpath).
  apply (Hkey it ts Hit Hts). by rewrite <-Hk, Hpath.
Qed.

Lemma sum_indicator (keys : list Timestamp) k0 :
  NoDup keys → k0 ∈ keys →
  sum_list_with (λ k, if decide (Some k0 = Some k) then 1 else 0)%nat keys = 1%nat.
Proof.
  intros Hnodup. induction Hnodup as [|k keys Hk Hnodup IH]; intros Hin.
  { by apply not_elem_of_nil in Hin. }
  simpl. apply elem_of_cons in Hin as [->|Hin].
  - rewrite decide_True by done.
    assert (sum_list_with
              (λ k', if decide (Some k = Some k') then 1 else 0)%nat keys
            = 0%nat) as ->; [|done].
    clear IH Hnodup. induction keys as [|k' keys IH]; [done|]. simpl.
    rewrite decide_False.
    + apply IH. intros Hin. apply Hk. by right.
    + intros [= ->]. apply Hk. by left.
  - rewrite decide_False; [by rewrite IH|].
    intros [= ->]. done.
Qed.

Lemma sum_list_with_pointwise {A} (f g : A → nat) (l : list A) :
  (∀ x, f x = g x) → sum_list_with f l = sum_list_with g l.
Proof.
  intros Hfg. induction l as [|x l IH]; [done|].
  cbn [sum_list_with]. by rewrite Hfg, IH.
Qed.

Lemma sum_list_with_plus {A} (f g : A → nat) (l : list A) :
  sum_list_with (λ x, f x + g x)%nat l
  = (sum_list_with f l + sum_list_with g l)%nat.
Proof.
  induction l as [|x l IH]; [done|]. cbn [sum_list_with]. rewrite IH. lia.
Qed.

Lemma sum_list_with_zero {A} (l : list A) :
  sum_list_with (λ _, 0%nat) l = 0%nat.
Proof. induction l as [|x l IH]; [done|]. cbn [sum_list_with]. by rewrite IH. Qed.

Lemma groups_partition (P : item → Prop) `{∀ it, Decision (P it)}
    (keys : list Timestamp) (l : list item) :
  NoDup keys →
  (∀ it ts, it ∈ l → timestamp_of it = Some ts → ts ∈ keys) →
  sum_list_with
    (λ ts, length (filter P (filter (λ it, timestamp_of it = Some ts) l)))
    keys
  = length (filter (λ it, is_Some (timestamp_of it) ∧ P it) l).
Proof.
  intros Hnodup. induction l as [|it l IH]; intros Hkeys.
  { rewrite (sum_list_with_pointwise _ (λ _, 0%nat)) by done.
    apply sum_list_with_zero. }
  rewrite (sum_list_with_pointwise _
             (λ ts, (if decide (timestamp_of it = Some ts ∧ P it)
                     then 1 else 0)
                    + length (filter P
                        (filter (λ it, timestamp_of it = Some ts) l)))%nat).
  2: { intros ts. rewrite (filter_cons _ it).
       destruct (decide (timestamp_of it = Some ts)) as [Hk|Hk].
       - rewrite (filter_cons _ it). destruct (decide (P it)).
         + by rewrite decide_True.
         + by rewrite decide_False by tauto.
       - by rewrite decide_False by tauto. }
  rewrite sum_list_with_plus.
  rewrite IH by (intros it' ts Hit'; apply Hkeys; by right).
  rewrite (filter_cons _ it).
  destruct (decide (is_Some (timestamp_of it) ∧ P it)) as [[[ts Hts] HP]|Hno].
  - rewrite (sum_list_with_pointwise _
               (λ k, if decide (Some ts = Some k) then 1 else 0)%nat).
    + rewrite sum_indicator; [done|done|].
      apply (Hkeys it); [by left|done].
    + intros k. rewrite Hts. destruct (decide (Some ts = Some k)).
      * by rewrite decide_True.
      * by rewrite decide_False by tauto.
  - rewrite (sum_list_with_pointwise _ (λ _, 0%nat)).
    + by rewrite sum_list_with_zero.
    + intros k. rewrite decide_False; [done|].
      intros [Hts HP]. apply Hno. split; [by rewrite Hts|done].
Qed.

(** X14.  Every scanned item that has a timestamp and a numeric fare is
    counted in exactly one written row: the [count_trips] of the rows add
    up to the number of these items. *)
Theorem every_trip_is_counted_once
    (env : gmap string string) (pages : list (list item)) bucket :
  let items := scan_all_items pages in
  is_Some (env !! "DYNAMODB_TABLE_NAME") →
  env !! "ATHENA_BUCKET_NAME" = Some bucket →
  Exists (λ it : item, is_Some (it !! "pickup_datetime")) items →
  Forall timestamp_parses items →
  ∃ kpis,
    lambda_handler env pages = Some (written bucket <$> kpis) ∧
    sum_list (Aggregator.count_trips <$> kpis)
    = length (filter (λ it, is_Some (timestamp_of it) ∧ is_Some (fare_of it))
                     items).
Proof.
  intros items Htable Hbucket Hcol Hparses.
  exists ((λ ts, kpi_of ts items) <$> timestamps items). split.
  { rewrite (handler_writes _ _ _ _ _ _ _ _ env pages bucket) by done.
    by rewrite <-list_fmap_compose. }
  rewrite <-(groups_partition (λ it, is_Some (fare_of it))
               (timestamps items) items).
  - rewrite <-list_fmap_compose.
    generalize (timestamps items). intros keys.
    induction keys as [|k keys IHk]; [done|].
    rewrite fmap_cons. simpl. rewrite IHk. f_equal.
    apply agg_count_parsed.
  - apply timestamps_NoDup.
  - intros it ts Hit Hts. apply elem_of_timestamps. by exists it.
Qed.

(** X15.  The rows are written in ascending order of their timestamps, and
    no timestamp is written twice. *)
Theorem rows_are_written_in_timestamp_order
    (env : gmap string string) (pages : list (list item)) bucket :
  let items := scan_all_items pages in
  is_Some (env !! "DYNAMODB_TABLE_NAME") →
  env !! "ATHENA_BUCKET_NAME" = Some bucket →
  Exists (λ it : item, is_Some (it !! "pickup_datetime")) items →
  Forall timestamp_parses items →
  ∃ kpis,
    lambda_handler env pages = Some (written bucket <$> kpis) ∧
    StronglySorted Aggregator.ts_le (Aggregator.pickup_datetime <$> kpis) ∧
    NoDup (Aggregator.pickup_datetime <$> kpis) ∧
    ∀ ts, ts ∈ Aggregator.pickup_datetime <$> kpis
          ↔ ∃ it, it ∈ items ∧ timestamp_of it = Some ts.
Proof.
  intros items Htable Hbucket Hcol Hparses.
  exists ((λ ts, kpi_of ts items) <$> timestamps items).
  assert (Aggregator.pickup_datetime <$> ((λ ts, kpi_of ts items)
                                            <$> timestamps items)
          = timestamps items) as ->.
  { rewrite <-list_fmap_compose. generalize (timestamps items). intros keys.
    induction keys as [|k keys IHk]; [done|].
    rewrite fmap_cons. by rewrite IHk. }
  split_and!.
  - rewrite (handler_writes _ _ _ _ _ _ _ _ env pages bucket) by done.
    by rewrite <-list_fmap_compose.
  - apply timestamps_sorted.
  - apply timestamps_NoDup.
  - apply elem_of_timestamps.
Qed.

End aggregator_further.

(** ** The path of a day *)

Lemma digit_inj a b :
  Aggregator.digit a = Aggregator.digit b → a `mod` 10 = b `mod` 10.
Proof.
  unfold Aggregator.digit. intros Heq.
  apply (f_equal nat_of_ascii) in Heq.
  assert (a `mod` 10 < 10)%nat by (apply Nat.mod_upper_bound; lia).
  assert (b `mod` 10 < 10)%nat by (apply Nat.mod_upper_bound; lia).
  rewrite !nat_ascii_embedding in Heq by lia. lia.
Qed.

Lemma pad2_inj a b :
  (a < 100)%nat → (b < 100)%nat →
  Aggregator.pad2 a = Aggregator.pad2 b → a = b.
Proof.
  unfold Aggregator.pad2. intros Ha Hb Heq.
  assert (Aggregator.digit (a `div` 10) = Aggregator.digit (b `div` 10))
    as H1%digit_inj by congruence.
  assert (Aggregator.digit a = Aggregator.digit b)
    as H0%digit_inj by congruence.
  rewrite !Nat.mod_small in H1 by (apply Nat.Div0.div_lt_upper_bound; lia).
  rewrite (Nat.div_mod_eq a 10), (Nat.div_mod_eq b 10). lia.
Qed.

Lemma pad4_inj a b :
  (a < 100 * 100)%nat → (b < 100 * 100)%nat →
  Aggregator.pad4 a = Aggregator.pad4 b → a = b.
Proof.
  unfold Aggregator.pad4, Aggregator.pad2.
  intros Ha Hb Heq.
  assert (Aggregator.digit (a `div` 1000) = Aggregator.digit (b `div` 1000))
    as H3%digit_inj by congruence.
  assert (Aggregator.digit (a `div` 100) = Aggregator.digit (b `div` 100))
    as H2%digit_inj by congruence.
  assert (Aggregator.digit (a `div` 10) = Aggregator.digit (b `div` 10))
    as H1%digit_inj by congruence.
  assert (Aggregator.digit a = Aggregator.digit b)
    as H0%digit_inj by congruence.
  assert (a `div` 1000 < 10)%nat
    by (apply Nat.Div0.div_lt_upper_bound; lia).
  assert (b `div` 1000 < 10)%nat
    by (apply Nat.Div0.div_lt_upper_bound; lia).
  rewrite !Nat.mod_small in H3 by done.
  assert (∀ n, n = 1000 * (n `div` 1000)
                   + 100 * ((n `div` 100) `mod` 10)
                   + 10 * ((n `div` 10) `mod` 10) + n `mod` 10)%nat as Hdigits.
  { intros n.
    pose proof (Nat.div_mod_eq n 10).
    pose proof (Nat.div_mod_eq (n `div` 10) 10).
    pose proof (Nat.div_mod_eq (n `div` 10 `div` 10) 10).
    rewrite !Nat.Div0.div_div in *.
    change (10 * 10)%nat with 100 in *. change (100 * 10)%nat with 1000 in *.
    lia. }
  rewrite (Hdigits a), (Hdigits b). lia.
Qed.

(** X16.  Timestamps of different calendar days (years of at most four
    digits, months and days of at most two) are written to different
    paths: a day's object is overwritten only by objects of the same day. *)
Theorem different_days_have_different_paths (t1 t2 : Aggregator.Timestamp) :
  (Aggregator.year t1 < 100 * 100)%nat →
  (Aggregator.year t2 < 100 * 100)%nat →
  (Aggregator.month t1 < 100)%nat → (Aggregator.month t2 < 100)%nat →
  (Aggregator.day t1 < 100)%nat → (Aggregator.day t2 < 100)%nat →
  "kpis/date=" +:+ Aggregator.strftime_Ymd t1 +:+ "/kpi.json"
  = "kpis/date=" +:+ Aggregator.strftime_Ymd t2 +:+ "/kpi.json" →
  Aggregator.year t1 = Aggregator.year t2 ∧
  Aggregator.month t1 = Aggregator.month t2 ∧
  Aggregator.day t1 = Aggregator.day t2.
Proof.
  intros Hy1 Hy2 Hm1 Hm2 Hd1 Hd2 Heq.
  unfold Aggregator.strftime_Ymd in Heq.
  set (y1 := Aggregator.year t1) in *. set (y2 := Aggregator.year t2) in *.
  set (m1 := Aggregator.month t1) in *. set (m2 := Aggregator.month t2) in *.
  set (d1 := Aggregator.day t1) in *. set (d2 := Aggregator.day t2) in *.
  assert (Aggregator.pad4 y1 = Aggregator.pad4 y2 ∧
          Aggregator.pad2 m1 = Aggregator.pad2 m2 ∧
          Aggregator.pad2 d1 = Aggregator.pad2 d2) as (Hy & Hm & Hd).
  { unfold Aggregator.pad4, Aggregator.pad2 in *.
    repeat match type of Heq with
           | context [Aggregator.digit ?n] =>
               let c := fresh "c" in
               set (c := Aggregator.digit n) in *; clearbody c
           end.
    cbv [String.append] in Heq. split_and!; congruence. }
  split_and!; [by apply pad4_inj|by apply pad2_inj|by apply pad2_inj].
Qed.

(** X16 on two timestamps of 22 April 2025. *)
Lemma different_days_have_different_paths_witness :
  let t1 := Sample.at_time 8 30 in
  let t2 := Sample.at_time 23 59 in
  Aggregator.year t1 = Aggregator.year t2 ∧
  Aggregator.month t1 = Aggregator.month t2 ∧
  Aggregator.day t1 = Aggregator.day t2.
Proof.
  apply (different_days_have_different_paths
           (Sample.at_time 8 30) (Sample.at_time 23 59));
    try (simpl; lia).
  reflexivity.
Defined.

(** ** The further properties on the example data *)

(** X2 on the table that holds [t0], with a batch that names [t1] and
    [t0]. *)
Lemma merger_never_removes_witness :
  let records :=
    (Sample.delivered ∘ Sample.json_dumps)
      <$> [Sample.requested; Sample.corrected; Sample.completed] in
  ∃ it',
    Merger.items (sample_merger records Sample.one_trip_table).1 !! "t0"
    = Some it' ∧
    dom ({[ "id" := "t0"; "fare_amount" := "9.5" ]} : gmap string string)
      ⊆ dom it'.
Proof.
  apply (merger_never_removes Sample.b64decode_utf8 Sample.json_loads
           Sample.get_item_accepts Sample.put_item_accepts).
  reflexivity.
Defined.

(** X3 on a batch for [t1] and for the trip named by the empty string, on
    the table that holds [t0]: the example table decides by the [id] of
    the item, which is the [trip_id] of the payload. *)
Lemma redelivery_changes_nothing_witness :
  let records :=
    (Sample.delivered ∘ Sample.json_dumps)
      <$> [Sample.requested; Sample.unnamed; Sample.completed] in
  Merger.items
    (sample_merger records (sample_merger records Sample.one_trip_table).1).1
  = Merger.items (sample_merger records Sample.one_trip_table).1.
Proof.
  apply (redelivery_changes_nothing Sample.b64decode_utf8 Sample.json_loads
           Sample.get_item_accepts Sample.put_item_accepts).
  intros k existing existing' payload.
  unfold Sample.put_item_accepts, Merger.merge.
  by rewrite !lookup_insert_eq.
Defined.

(** Where what is stored has a say in what the table takes, a second
    delivery can change an item: with the limit on the size of an item,
    the rating is refused while the long note is stored, and taken at the
    second delivery, after the note was emptied. *)
Example redelivery_can_change_an_item :
  let handler :=
    Merger.lambda_handler Sample.b64decode_utf8 Sample.json_loads
      Sample.get_item_accepts Sample.put_item_accepts_small in
  let records :=
    (Sample.delivered ∘ Sample.json_dumps)
      <$> [Sample.rated; Sample.note_removed] in
  Merger.items (handler records Sample.noted_table).1 !! "t0"
  = Some {[ "id" := "t0"; "trip_id" := "t0"; "note" := "" ]} ∧
  Merger.items (handler records (handler records Sample.noted_table).1).1
    !! "t0"
  = Some {[ "id" := "t0"; "trip_id" := "t0"; "note" := "";
            "rating" := "five stars" ]}.
Proof. split; vm_compute; reflexivity. Qed.

(** X4 on a record of [t1] and a record of [t0]. *)
Lemma records_of_different_trips_commute_witness :
  let r0 := Sample.delivered (Sample.json_dumps Sample.corrected) in
  let r1 := Sample.delivered (Sample.json_dumps Sample.requested) in
  let r2 := Sample.delivered (Sample.json_dumps Sample.completed) in
  Merger.items (sample_merger ([r1] ++ r2 :: r0 :: []) Sample.one_trip_table).1
  = Merger.items
      (sample_merger ([r1] ++ r0 :: r2 :: []) Sample.one_trip_table).1.
Proof.
  apply (records_of_different_trips_commute
           Sample.b64decode_utf8 Sample.json_loads
           Sample.get_item_accepts Sample.put_item_accepts).
  vm_compute. discriminate.
Defined.

(** X6 on the broken file followed by the file of two trips. *)
Lemma ingestor_effects_witness :
  let rows record :=
    Ingestor.rows_of Sample.DictReader Sample.s3_objects record in
  sample_ingestor (Some "trips") [Sample.broken_csv; Sample.trips_csv]
    Sample.nothing_done
  = (Ingestor.after_calls Sample.nothing_done
       ((λ record, (Ingestor.bucket_name record, Ingestor.object_key record))
          <$> [Sample.broken_csv; Sample.trips_csv])
       (sample_request
          <$> ([Sample.broken_csv; Sample.trips_csv] ≫= λ record,
                 Ingestor.attempted_rows Sample.json_dumps
                   Sample.kinesis_accepts "trips" (rows record)))
       (sample_request
          <$> ([Sample.broken_csv; Sample.trips_csv] ≫= λ record,
                 Ingestor.taken_rows Sample.json_dumps
                   Sample.kinesis_accepts "trips" (rows record))),
     Some {[ "status" := "done" ]}).
Proof.
  apply (ingestor_effects Sample.DictReader Sample.json_dumps
           Sample.s3_objects Sample.kinesis_accepts "trips").
  done.
Defined.

(** X7 on the broken file. *)
Lemma rows_are_sent_in_order_until_one_fails_witness :
  let w' :=
    (sample_ingestor (Some "trips") [Sample.broken_csv]
       Sample.nothing_done).1 in
  let requests :=
    sample_request
      <$> Ingestor.rows_of Sample.DictReader Sample.s3_objects
            Sample.broken_csv in
  ∃ taken calls,
    Ingestor.stream w' = Ingestor.stream Sample.nothing_done ++ taken ∧
    Ingestor.put_record_calls w'
    = Ingestor.put_record_calls Sample.nothing_done ++ calls ∧
    taken `prefix_of` calls ∧
    calls `prefix_of` requests ∧
    (length calls ≤ S (length taken))%nat ∧
    Forall (λ request, Sample.kinesis_accepts request = true) taken.
Proof.
  apply (rows_are_sent_in_order_until_one_fails
           Sample.DictReader Sample.json_dumps Sample.s3_objects
           Sample.kinesis_accepts "trips" Sample.broken_csv
           Sample.nothing_done).
  done.
Defined.

(** X10 on a table whose only item has no [fare_amount]. *)
Lemma nothing_matching_writes_nothing_witness :
  sample_aggregator Sample.env [[Sample.requested]] = Some [].
Proof.
  apply (nothing_matching_writes_nothing
           0%Q Sample.num_add Sample.num_div Sample.num_max Sample.num_min
           Sample.to_numeric Sample.to_datetime Sample.to_json);
    compute_done.
Defined.

(** X11 on the trip of 08:30. *)
Lemma missing_bucket_name_raises_at_first_write_witness :
  sample_aggregator Sample.env_without_bucket [[Sample.trip_0830]] = None.
Proof.
  etrans.
  - apply (missing_bucket_name_raises_at_first_write
             0%Q Sample.num_add Sample.num_div Sample.num_max Sample.num_min
             Sample.to_numeric Sample.to_datetime Sample.to_json
             Sample.env_without_bucket [[Sample.trip_0830]]);
      [compute_done|reflexivity|compute_done|compute_done].
  - apply decide_True. compute_done.
Defined.

(** X12 on the completion of a trip, which has no [pickup_datetime]. *)
Lemma no_pickup_datetime_column_raises_witness :
  sample_aggregator Sample.env [[Sample.completed]] = None.
Proof.
  apply (no_pickup_datetime_column_raises
           0%Q Sample.num_add Sample.num_div Sample.num_max Sample.num_min
           Sample.to_numeric Sample.to_datetime Sample.to_json).
  - vm_compute. discriminate.
  - compute_done.
Defined.

(** X13 on the three records of the repository's test and a bucket that
    holds the object of the day before. *)
Lemma only_day_objects_are_written_witness :
  let items := [Sample.trip_0830; Sample.trip_0900; Sample.trip_1015] in
  let path := λ ts, "kpis/date=" +:+ Aggregator.strftime_Ymd ts
                      +:+ "/kpi.json" in
  let objects : gmap string string :=
    {[ "kpis/date=2025-04-21/kpi.json" := "{}" ]} in
  (∀ w, w ∈ Sample.kpi_writes →
     Sample.env !! "ATHENA_BUCKET_NAME" = Some (Aggregator.Bucket w) ∧
     Aggregator.ContentType w = "application/json" ∧
     ∃ it ts, it ∈ Aggregator.scan_all_items [items] ∧
              Aggregator.timestamp_of Sample.to_datetime it = Some ts ∧
              Aggregator.Key w = path ts) ∧
  (∀ key,
     (∀ it ts, it ∈ Aggregator.scan_all_items [items] →
               Aggregator.timestamp_of Sample.to_datetime it = Some ts →
               key ≠ path ts) →
     Aggregator.put_objects objects Sample.kpi_writes !! key
     = objects !! key).
Proof.
  apply (only_day_objects_are_written
           0%Q Sample.num_add Sample.num_div Sample.num_max Sample.num_min
           Sample.to_numeric Sample.to_datetime Sample.to_json Sample.env
           [[Sample.trip_0830; Sample.trip_0900; Sample.trip_1015]]).
  vm_compute. reflexivity.
Defined.

(** X14 on two trips of 08:30, one of them with a fare that is not a
    number, and a trip of 09:00: two of the three are counted. *)
Lemma every_trip_is_counted_once_witness :
  let items := [Sample.trip_0830; Sample.trip_bad_fare; Sample.trip_0900] in
  ∃ kpis,
    sample_aggregator Sample.env [items]
    = Some (sample_written "test-athena-bucket" <$> kpis) ∧
    sum_list (Aggregator.count_trips <$> kpis) = 2%nat.
Proof.
  intros items.
  destruct (every_trip_is_counted_once
              0%Q Sample.num_add Sample.num_div Sample.num_max Sample.num_min
              Sample.to_numeric Sample.to_datetime Sample.to_json Sample.env
              [items] "test-athena-bucket")
    as (kpis & Hwrites & Hcount);
    [compute_done|reflexivity|compute_done|compute_done|].
  exists kpis. split; [exact Hwrites|].
  rewrite Hcount. vm_compute. reflexivity.
Defined.

(** X15 on the three records of the repository's test, scanned in the
    order 10:15, 08:30, 09:00. *)
Lemma rows_are_written_in_timestamp_order_witness :
  let items := [Sample.trip_1015; Sample.trip_0830; Sample.trip_0900] in
  ∃ kpis,
    sample_aggregator Sample.env [items]
    = Some (sample_written "test-athena-bucket" <$> kpis) ∧
    StronglySorted Aggregator.ts_le (Aggregator.pickup_datetime <$> kpis) ∧
    NoDup (Aggregator.pickup_datetime <$> kpis) ∧
    ∀ ts, ts ∈ Aggregator.pickup_datetime <$> kpis
          ↔ ∃ it, it ∈ Aggregator.scan_all_items [items] ∧
                  Aggregator.timestamp_of Sample.to_datetime it = Some ts.
Proof.
  apply (rows_are_written_in_timestamp_order
           0%Q Sample.num_add Sample.num_div Sample.num_max Sample.num_min
           Sample.to_numeric Sample.to_datetime Sample.to_json Sample.env
           [[Sample.trip_1015; Sample.trip_0830; Sample.trip_0900]]
           "test-athena-bucket");
    [compute_done|reflexivity|compute_done|compute_done].
Defined.

